(** * doxy-coverage: a shallow embedding of [doxy-coverage.py]

    The script reads the XML that Doxygen writes, counts per source
    file which documentable members carry a description, prints a
    report and returns a verdict that [main] turns into the exit status.

    Conventions of the embedding.
    - Python [int] is [Z].  Python [float] is modelled by the exact
      rational it approximates, kept in lowest terms ([Qred]), so the
      rounding of IEEE doubles is not part of the model; whether a value
      is an [int] or a [float] is, through the constructors of [pynum].
      A double near 100 lies within 2^-47 of the fraction it rounds, so
      doubles and fractions compare alike as long as a path has fewer
      than 2^26 symbols.  The conversion of an [int] to a [float] can
      overflow; it is modelled where the [int] is an input, the
      threshold.
    - [str] is [string] (UTF-8 bytes: byte order and code-point order
      agree, and so do the substring tests).  [None] where a [str] is
      expected is [option string].
    - A [dict] whose iteration order is observable (the files table) is
      an insertion-ordered association list; the per-record symbol
      mapping, whose order is erased by counting and sorting, is a
      [gmap].
    - Exceptions are the left summand of [result]; [print] appends to
      the standard output threaded through [io]. *)

From stdpp Require Import gmap strings list fin_maps sorting pretty.
From Stdlib Require Import QArith OrderedTypeEx.

Set Warnings "-register-all".

Open Scope string_scope.
Open Scope list_scope.
Open Scope Z_scope.

(** ** Exceptions and the two monads *)

Inductive exn : Type :=
| ZeroDivisionError
| TypeError
| KeyError
| FileNotFoundError
| ParseError
| OverflowError
| SystemExit (code : Z).

Definition result (A : Type) : Type := exn + A.

Definition ok {A} (a : A) : result A := inr a.
Definition raise {A} (e : exn) : result A := inl e.

Definition rbind {A B} (m : result A) (k : A → result B) : result B :=
  match m with
  | inl e => inl e
  | inr a => k a
  end.

Notation "'try!' x ← m ; k" := (rbind m (λ x, k))
  (at level 10, x pattern, m at level 100, k at level 200).

(** Lines written by [print], with the arguments of their format. *)
Inductive outline : Type :=
| FileLine (doc_per : Q) (f : string) (doc_yes total : Z)
| SymLine (d : option string)
| BlankLine
| TotalLine (total_per : Q).

Definition stdout : Type := list outline.

(** A computation that prints and may raise: what was printed before
    the exception stays printed. *)
Definition io (A : Type) : Type := stdout → stdout * result A.

Definition ioret {A} (a : A) : io A := λ out, (out, ok a).
Definition iobind {A B} (m : io A) (k : A → io B) : io B :=
  λ out, match m out with
         | (out', inl e) => (out', inl e)
         | (out', inr a) => k a out'
         end.
Definition lift {A} (m : result A) : io A := λ out, (out, m).
Definition print (l : outline) : io unit := λ out, (out ++ [l], ok tt).

Notation "'do!' x ← m ; k" := (iobind m (λ x, k))
  (at level 10, x pattern, m at level 100, k at level 200).

(** [for l in ls: print(l)] *)
Fixpoint print_each (ls : list outline) : io unit :=
  match ls with
  | [] => ioret tt
  | l :: ls' => do! _ ← print l; print_each ls'
  end.

(** ** Numbers *)

Inductive pynum : Type :=
| PInt (z : Z)
| PFloat (q : Q).

(** The number denoted, forgetting whether it is an [int] or a [float]. *)
Definition pyval (x : pynum) : Q :=
  match x with
  | PInt z => inject_Z z
  | PFloat q => q
  end.

(** [a / b] of Python 3: true division, the result is always a
    [float]; a zero divisor raises. *)
Definition py_truediv (a b : pynum) : result pynum :=
  if Qeq_bool (pyval b) 0 then raise ZeroDivisionError
  else ok (PFloat (Qred (pyval a / pyval b))).

(** [a * b]: [int] when both operands are, else [float].  The script
    multiplies a count of symbols, the length of a list and so below
    2^63, by [100.0]: the conversion of the count cannot overflow. *)
Definition py_mul (a b : pynum) : pynum :=
  match a, b with
  | PInt x, PInt y => PInt (x * y)
  | _, _ => PFloat (Qred (pyval a * pyval b))
  end.

(** The conversion of the [int] operand where the other operand is a
    [float]: an [int] that rounds to a magnitude beyond the largest
    double, [2^1024 - 2^971], is an [OverflowError]; the first such
    [int] is halfway to [2^1024]. *)
Definition float_limit : Z := 2 ^ 1024 - 2 ^ 970.

Definition in_float_range (z : Z) : bool := Z.abs z <? float_limit.

Definition py_float (z : Z) : result Q :=
  if in_float_range z then ok (inject_Z z) else raise OverflowError.

(** [a - b]: [int] when both operands are; else the [int] operand is
    converted, which can raise. *)
Definition py_sub (a b : pynum) : result pynum :=
  match a, b with
  | PInt x, PInt y => ok (PInt (x - y))
  | PInt x, PFloat q => try! fx ← py_float x; ok (PFloat (Qred (fx - q)))
  | PFloat p, PInt y => try! fy ← py_float y; ok (PFloat (Qred (p - fy)))
  | PFloat p, PFloat q => ok (PFloat (Qred (p - q)))
  end.

Definition Qltb (a b : Q) : bool :=
  match Qcompare a b with Lt => true | _ => false end.

Definition py_lt (a b : pynum) : bool := Qltb (pyval a) (pyval b).
Definition py_gt (a b : pynum) : bool := Qltb (pyval b) (pyval a).

(** [int(x)], as ['%d' % x] applies it: truncation toward zero. *)
Definition py_int (q : Q) : Z := Z.quot (Qnum q) (Z.pos (Qden q)).

(** ** Strings *)

(** [sub in s] *)
Fixpoint str_in (sub s : string) : bool :=
  String.prefix sub s ||
  match s with
  | EmptyString => false
  | String _ s' => str_in sub s'
  end.

(** [str(x)] for a value that is a [str] or [None] *)
Definition py_str (x : option string) : string :=
  match x with
  | Some s => s
  | None => "None"
  end.

(** ['%3d' % n]: at least three columns, padded on the left. *)
Definition pad3 (s : string) : string :=
  match String.length s with
  | 0%nat => "   " ++ s
  | 1%nat => "  " ++ s
  | 2%nat => " " ++ s
  | _ => s
  end%string.

(** The text of a line, as [print] writes it. *)
Definition render (l : outline) : string :=
  match l with
  | FileLine doc_per f doc_yes total =>
      pad3 (pretty (py_int doc_per)) ++ "% - " ++ f ++ " - (" ++
      pretty doc_yes ++ " of " ++ pretty total ++ ")"
  | SymLine d => String (Ascii.ascii_of_nat 9) (" " ++ py_str d)
  | BlankLine => ""
  | TotalLine total_per =>
      pretty (py_int total_per) ++ "% API documentation coverage"
  end%string.

(** [not x] for a value that is a [str] or [None] *)
Definition py_not (x : option string) : bool :=
  match x with
  | None => true
  | Some s => bool_decide (s = "")
  end.

(** [a < b] on values that are [str] or [None]: ordering [None] is a
    [TypeError]. *)
Definition key_lt (a b : option string) : result bool :=
  match a, b with
  | Some x, Some y => ok (String.ltb x y)
  | _, _ => raise TypeError
  end.

(** ** Sorting

    [sorted] and [list.sort] are stable and only ever ask [x < y].  They
    are modelled by a stable insertion sort: [x], which stood before
    every element of [l], is put before the first element that is not
    smaller.  With two or more elements every element takes part in a
    comparison, as in CPython, so the sort raises exactly when a
    comparison does. *)
Section Sorted.
Context {A : Type} (lt : A → A → result bool).

Fixpoint py_insert (x : A) (l : list A) : result (list A) :=
  match l with
  | [] => ok [x]
  | y :: l' =>
      try! b ← lt y x;
      if b then try! r ← py_insert x l'; ok (y :: r)
      else ok (x :: y :: l')
  end.

Fixpoint py_sorted (l : list A) : result (list A) :=
  match l with
  | [] => ok []
  | x :: l' => try! r ← py_sorted l'; py_insert x r
  end.

End Sorted.

(** ** Insertion-ordered dictionaries *)
Abbreviation odict V := (list (string * V)).

Section OrderedDict.
Context {V : Type}.

Definition keys (d : odict V) : list string := d.*1.

Fixpoint od_get (d : odict V) (k : string) : option V :=
  match d with
  | [] => None
  | (k', v) :: d' => if bool_decide (k = k') then Some v else od_get d' k
  end.

(** [k in d] *)
Definition od_mem (d : odict V) (k : string) : bool :=
  bool_decide (is_Some (od_get d k)).

(** [d[k]] *)
Definition od_item (d : odict V) (k : string) : result V :=
  match od_get d k with
  | Some v => ok v
  | None => raise KeyError
  end.

(** [d[k] = v]: a key already present keeps its place. *)
Fixpoint od_set (d : odict V) (k : string) (v : V) : odict V :=
  match d with
  | [] => [(k, v)]
  | (k', v') :: d' =>
      if bool_decide (k = k') then (k', v) :: d'
      else (k', v') :: od_set d' k v
  end.

End OrderedDict.

(** ** ElementTree

    An element as [xml.etree.ElementTree] holds it: tag, attributes,
    the text before the first child, and the child elements. *)
Inductive element : Type :=
| Element (tag : string) (attrib : gmap string string)
          (text : option string) (children : list element).

Definition tag (e : element) : string :=
  match e with Element t _ _ _ => t end.
Definition attrib (e : element) : gmap string string :=
  match e with Element _ a _ _ => a end.
Definition text (e : element) : option string :=
  match e with Element _ _ x _ => x end.
Definition children (e : element) : list element :=
  match e with Element _ _ _ c => c end.

(** [e.get(key)] *)
Definition get (e : element) (key : string) : option string :=
  attrib e !! key.

(** [e.iter()]: the element, then its descendants in document order. *)
Fixpoint iter (e : element) : list element :=
  match e with
  | Element _ _ _ cs =>
      e :: (fix iter_all (l : list element) : list element :=
              match l with
              | [] => []
              | c :: l' => iter c ++ iter_all l'
              end) cs
  end.

(** [e.findall('./t')] and [e.findall('t')] *)
Definition findall_child (e : element) (t : string) : list element :=
  filter (λ c, tag c = t) (children e).

(** [e.find('./t')] *)
Definition find_child (e : element) (t : string) : option element :=
  head (findall_child e t).

(** [e.findall('./t/')]; ElementPath reads a trailing slash as [/*]:
    every child element of every child tagged [t]. *)
Definition findall_child_star (e : element) (t : string) : list element :=
  flat_map children (findall_child e t).

(** [e.findall('./t//u')]: below each child tagged [t], the proper
    descendants tagged [u], in document order. *)
Definition findall_descendant (e : element) (t u : string) : list element :=
  flat_map (λ c, filter (λ d, tag d = u) (tail (iter c))) (findall_child e t).

(** ** File system

    What [io.open]/[ET.XML] and [ET.parse] yield for a path: nothing
    there, a file that is not well-formed XML, or the root element. *)
Inductive file_content : Type :=
| Malformed
| Document (root : element).

Definition filesystem : Type := gmap string file_content.

Definition read_xml (fs : filesystem) (fullpath : string) : result element :=
  match fs !! fullpath with
  | None => raise FileNotFoundError
  | Some Malformed => raise ParseError
  | Some (Document root) => ok root
  end.

(** [os.path.exists] *)
Definition path_exists (fs : filesystem) (p : string) : bool :=
  bool_decide (is_Some (fs !! p)).

(** [a.endswith('/')] *)
Fixpoint ends_with_sep (s : string) : bool :=
  match s with
  | EmptyString => false
  | String c EmptyString => bool_decide (String c EmptyString = "/")
  | String _ s' => ends_with_sep s'
  end.

(** [os.path.join(a, b)] of [posixpath] *)
Definition path_join (a b : string) : string :=
  if String.prefix "/" b then b
  else if bool_decide (a = "") || ends_with_sep a then (a ++ b)%string
  else (a ++ "/" ++ b)%string.

(** ** parse_file *)

Abbreviation symmap := (gmap (option string) bool).

(** Should it be documented: static functions are passed over. *)
Definition skipped (definition : element) : bool :=
  bool_decide (get definition "kind" = Some "function") &&
  bool_decide (get definition "static" = Some "yes").

(** Is the definition documented? *)
Definition is_documented (definition : element) : bool :=
  existsb (λ k, negb (bool_decide (findall_child_star definition k = [])))
    ["briefdescription"; "detaileddescription"; "inbodydescription"].

(** Name *)
Definition member_name (definition : element) : option string :=
  match find_child definition "definition" with
  | Some d_def => text d_def
  | None =>
      match find_child definition "name" with
      | Some d_nam => text d_nam
      | None => get definition "id"
      end
  end.

(** One turn of the loop over the member definitions; the state is
    [(sourcefile, definitions)]. *)
Definition parse_member (st : option string * symmap) (definition : element)
  : option string * symmap :=
  let '(sourcefile, definitions) := st in
  if skipped definition then st
  else
    let documented := is_documented definition in
    let sourcefile :=
      if py_not sourcefile then
        match find_child definition "location" with
        | Some loc => get loc "file"
        | None => sourcefile
        end
      else sourcefile in
    let name := member_name definition in
    (sourcefile, <[name := documented]> definitions).

Definition parse_members (ms : list element) : option string * symmap :=
  fold_left parse_member ms (None, ∅).

Definition parse_tree (fullpath : string) (tree : element) : string * symmap :=
  let '(sourcefile, definitions) :=
    parse_members (findall_descendant tree "compounddef" "memberdef") in
  (if py_not sourcefile then fullpath else py_str sourcefile, definitions).

Definition parse_file (fs : filesystem) (fullpath : string)
  : result (string * symmap) :=
  try! tree ← read_xml fs fullpath;
  ok (parse_tree fullpath tree).

(** ** parse *)

(** The parsed command line, [ns]. *)
Record namespace : Type := Namespace {
  dir : string;
  noerror : bool;
  threshold : Z;
  excludedirs : list string
}.

(** [FATAL]: the message goes to the standard error, which is not
    modelled; [sys.exit((1, 0)[ns.noerror])]. *)
Definition FATAL {A} (ns : namespace) : result A :=
  raise (SystemExit (if noerror ns then 0 else 1)).

Abbreviation filetable := (odict (list symmap)).

(** One turn of the loop over the compounds of the index.  The test
    [entry.get('kind') in ('dir')] has a string, not a tuple, on its
    right: it is a substring test, and a [TypeError] without [kind]. *)
Definition parse_entry (fs : filesystem) (path : string)
    (files : filetable) (entry : element) : result filetable :=
  match get entry "kind" with
  | None => raise TypeError
  | Some kind =>
      if str_in kind "dir" then ok files
      else
        let file_fp :=
          path_join path (py_str (get entry "refid") ++ ".xml")%string in
        try! tmp ← parse_file fs file_fp;
        if bool_decide (tmp.2 = ∅) then ok files
        else if od_mem files tmp.1 then
          try! l ← od_item files tmp.1;
          ok (od_set files tmp.1 (l ++ [tmp.2]))
        else ok (od_set files tmp.1 [tmp.2])
  end.

Fixpoint parse_entries (fs : filesystem) (path : string)
    (files : filetable) (entries : list element) : result filetable :=
  match entries with
  | [] => ok files
  | entry :: rest =>
      try! files' ← parse_entry fs path files entry;
      parse_entries fs path files' rest
  end.

Definition parse (fs : filesystem) (ns : namespace) (path : string)
  : result filetable :=
  let index_fp := path_join path "index.xml" in
  if negb (path_exists fs index_fp) then FATAL ns
  else
    try! tree ← read_xml fs index_fp;
    parse_entries fs path [] (findall_child tree "compound").

(** ** report *)

(** [[k for d in defs for k in d if d[k] == b]] *)
Definition flagged (b : bool) (defs : list symmap) : list (option string) :=
  flat_map (λ d : symmap,
    (filter (λ kv, kv.2 = b) (map_to_list d)).*1) defs.

(** [len([d[k] for d in defs for k in d if d[k]])] and its negation *)
Definition doc_count (b : bool) (defs : list symmap) : Z :=
  Z.of_nat (length (flagged b defs)).

Section Report.
Context (files : filetable) (exclude_dirs : list string) (ns : namespace).

Definition get_coverage (f : string) : result pynum :=
  try! defs ← od_item files f;
  if bool_decide (defs = []) then ok (PInt 100)
  else
    let doc_yes := doc_count true defs in
    let doc_no := doc_count false defs in
    py_truediv (py_mul (PInt doc_yes) (PFloat 100)) (PInt (doc_yes + doc_no)).

Definition file_cmp (a b : string) : result Z :=
  try! covA ← get_coverage a;
  try! covB ← get_coverage b;
  ok (Z.b2z (py_gt covA covB) - Z.b2z (py_lt covA covB)).

(** [functools.cmp_to_key(file_cmp)]: the keys compare by
    [file_cmp(a, b) < 0]. *)
Definition file_lt (a b : string) : result bool :=
  try! c ← file_cmp a b;
  ok (c <? 0).

(** The body of the loop once [f] has passed the exclusion test: the
    line of the file, its undocumented names, and the counts to add. *)
Definition report_file (f : string) : io (Z * Z) :=
  do! defs ← lift (od_item files f);
  if bool_decide (defs = []) then ioret (0, 0)
  else
    let doc_yes := doc_count true defs in
    let doc_no := doc_count false defs in
    do! doc_per ← lift (py_truediv (py_mul (PInt doc_yes) (PFloat 100))
                                   (PInt (doc_yes + doc_no)));
    do! _ ← print (FileLine (pyval doc_per) f doc_yes (doc_yes + doc_no));
    do! defs_sorted ← lift (py_sorted key_lt (flagged false defs));
    do! _ ← print_each (SymLine <$> defs_sorted);
    ioret (doc_yes, doc_no).

Definition excluded (f : string) : bool :=
  existsb (λ exclude_dir, str_in exclude_dir f) exclude_dirs.

Fixpoint report_loop (fs : list string) (total_yes total_no : Z)
  : io (Z * Z) :=
  match fs with
  | [] => ioret (total_yes, total_no)
  | f :: fs' =>
      if excluded f then report_loop fs' total_yes total_no
      else
        do! (doc_yes, doc_no) ← report_file f;
        report_loop fs' (total_yes + doc_yes) (total_no + doc_no)
  end.

Definition report : io pynum :=
  do! files_sorted ← lift (py_sorted file_lt (keys files));
  let files_sorted := rev files_sorted in
  do! (total_yes, total_no) ← report_loop files_sorted 0 0;
  let total_all := total_yes + total_no in
  do! total_per ← lift (py_truediv (PInt (total_yes * 100)) (PInt total_all));
  do! _ ← print BlankLine;
  do! _ ← print (TotalLine (pyval total_per));
  (* [(a, 0)[c]] builds the tuple before it is indexed: the subtraction
     is evaluated, and can raise, also where the comparison holds *)
  do! deficit ← lift (py_sub (PInt (threshold ns)) total_per);
  ioret (if py_gt total_per (PInt (threshold ns)) then PInt 0 else deficit).

End Report.

(** ** main *)

(** [sys.exit(arg)]: the exit status. *)
Definition sys_exit (arg : pynum) : Z :=
  match arg with
  | PInt z => Z.land z 255
  | PFloat _ => 1
  end.

(** An exception nobody catches ends the process with status 1;
    [SystemExit] carries its own.  [sys.exit] of a value that is not an
    [int] prints it on the standard error and gives status 1. *)
Definition exit_status (e : exn) : Z :=
  match e with
  | SystemExit code => Z.land code 255
  | _ => 1
  end.

(** [main], given the file system and the parsed command line.  The
    test [if not ns] never fires (a [Namespace] is true), and [return]
    ends the process with status 0. *)
Definition main (fs : filesystem) (ns : namespace) : stdout * Z :=
  match parse fs ns (dir ns) with
  | inl e => ([], exit_status e)
  | inr files =>
      match report files (excludedirs ns) ns [] with
      | (out, inl e) => (out, exit_status e)
      | (out, inr err) => (out, if noerror ns then 0 else sys_exit err)
      end
  end.

(** * Vocabulary of the properties *)

(** ** The pure insertion sort behind [py_sorted] *)

Fixpoint insert_by {A} (ltb : A → A → bool) (x : A) (l : list A) : list A :=
  match l with
  | [] => [x]
  | y :: l' => if ltb y x then y :: insert_by ltb x l' else x :: y :: l'
  end.

Fixpoint isort {A} (ltb : A → A → bool) (l : list A) : list A :=
  match l with
  | [] => []
  | x :: l' => insert_by ltb x (isort ltb l')
  end.

(** Comparing by a rational key. *)
Definition key_ltb {A} (key : A → Q) (x y : A) : bool := Qltb (key x) (key y).
Definition key_le {A} (key : A → Q) (x y : A) : Prop := (key x <= key y)%Q.

(** Alphabetical order of names, as [str <= str] and [str < str]. *)
Definition ident_le (a b : option string) : Prop :=
  match a, b with
  | Some x, Some y => String.leb x y = true
  | _, _ => False
  end.

Definition ident_ltb (a b : option string) : bool :=
  match a, b with
  | Some x, Some y => String.ltb x y
  | _, _ => false
  end.

(** ** What the report computes and prints *)

(** Every computation of the report only appends to what was printed. *)
Definition appends {A} (m : io A) : Prop :=
  ∀ out, m out = (out ++ (m []).1, (m []).2).

(** The coverage of a path as a plain number (0 where [get_coverage]
    raises). *)
Definition coverage (files : filetable) (f : string) : Q :=
  match get_coverage files f with
  | inr c => pyval c
  | inl _ => 0
  end.

(** The paths the loop prints a line for: not excluded, and with
    records. *)
Definition included (files : filetable) (exclude_dirs : list string)
    (f : string) : bool :=
  negb (excluded exclude_dirs f) &&
  match od_get files f with
  | Some (_ :: _) => true
  | _ => false
  end.

(** The lines of files in an output, as (path, percentage). *)
Definition printed_files (out : stdout) : list (string * Q) :=
  omap (λ l, match l with
             | FileLine p f _ _ => Some (f, p)
             | _ => None
             end) out.

(** The names printed straight after the line of path [f]. *)
Fixpoint leading_syms (out : stdout) : list (option string) :=
  match out with
  | SymLine d :: out' => d :: leading_syms out'
  | _ => []
  end.

Fixpoint beneath (f : string) (out : stdout) : list (option string) :=
  match out with
  | [] => []
  | FileLine _ g _ _ :: out' =>
      if bool_decide (g = f) then leading_syms out' else beneath f out'
  | _ :: out' => beneath f out'
  end.

(** What one turn of the loop prints for [f], and whether it reaches
    its end. *)
Definition segment (files : filetable) (f : string) : stdout :=
  (report_file files f []).1.

Definition completes (files : filetable) (f : string) : Prop :=
  ∃ yn, (report_file files f []).2 = inr yn.

(** The counts of path [f]. *)
Definition counts (files : filetable) (f : string) : Z * Z :=
  let defs := default [] (od_get files f) in
  (doc_count true defs, doc_count false defs).

(** The grand totals as sums over the paths that are not excluded. *)
Definition sum_counts (files : filetable) (paths : list string) : Z * Z :=
  (foldr (λ g acc, (counts files g).1 + acc) 0 paths,
   foldr (λ g acc, (counts files g).2 + acc) 0 paths).

Definition grand_totals (files : filetable) (exclude_dirs : list string)
  : Z * Z :=
  sum_counts files (filter (λ g, excluded exclude_dirs g = false) (keys files)).

(** The table without the entries of path [k]. *)
Definition od_remove {V} (d : odict V) (k : string) : odict V :=
  filter (λ kv, kv.1 ≠ k) d.

(** An exception that is not [SystemExit]: nothing catches it, and
    the interpreter ends the process with status 1. *)
Definition escapes (e : exn) : Prop := ∀ code, e ≠ SystemExit code.

(** ** Kinds of tables *)

(** The table has no documentable symbol in a path that is not
    excluded. *)
Definition empty_corpus (files : filetable) (exclude_dirs : list string) : Prop :=
  Forall (λ kv, excluded exclude_dirs kv.1 = false →
                doc_count true kv.2 + doc_count false kv.2 = 0) files.

(** Every path has records, and every record has symbols. *)
Definition records_ok (defs : list symmap) : Prop :=
  defs ≠ [] ∧ Forall (λ d : symmap, d ≠ ∅) defs.

Definition table_ok (files : filetable) : Prop :=
  Forall (λ kv, records_ok kv.2) files.

(** Every symbol of every record is documented. *)
Definition all_documented (files : filetable) : Prop :=
  Forall (λ kv,
    Forall (λ d : symmap, ∀ k b, d !! k = Some b → b = true) kv.2) files.

(** The members the loop of [parse_file] does not pass over. *)
Definition considered (ms : list element) : list element :=
  filter (λ m, skipped m = false) ms.

(** ** Worked inputs *)

(** A record with the given documented and undocumented names. *)
Definition record_of (documented undocumented : list string) : symmap :=
  list_to_map (((λ k, (Some k, true)) <$> documented) ++
               ((λ k, (Some k, false)) <$> undocumented)).

Definition ns_default : namespace :=
  {| dir := "xml"; noerror := false; threshold := 80; excludedirs := [] |}.

Definition ns_noerror : namespace :=
  {| dir := "xml"; noerror := true; threshold := 80; excludedirs := [] |}.

Definition ns_100 : namespace :=
  {| dir := "xml"; noerror := false; threshold := 100; excludedirs := [] |}.

(** Three files at 10%, 90% and 50%, in that order in the table. *)
Definition files_10_90_50 : filetable :=
  [ ("low.c",  [record_of ["a"] ["b"; "c"; "d"; "e"; "f"; "g"; "h"; "i"; "j"]]);
    ("high.c", [record_of ["a"; "b"; "c"; "d"; "e"; "f"; "g"; "h"; "i"] ["j"]]);
    ("mid.c",  [record_of ["a"; "b"; "c"; "d"; "e"] ["f"; "g"; "h"; "i"; "j"]]) ].

(** Group A with 3 of 3 documented, group B with 1 of 4. *)
Definition files_two_groups : filetable :=
  [ ("A.c", [record_of ["a1"; "a2"; "a3"] []]);
    ("B.c", [record_of ["b1"] ["b2"; "b3"; "b4"]]) ].

(** Two records of one file, both with [foo] undocumented. *)
Definition files_two_records : filetable :=
  [ ("dup.c", [record_of [] ["foo"]; record_of ["bar"] ["foo"]]) ].

(** A generated file, to be excluded, and a source file. *)
Definition files_generated : filetable :=
  [ ("gen/moc.c", [record_of [] ["x"; "y"]]);
    ("src/a.c", [record_of ["f"] ["g"]]) ].

(** A small Doxygen record: a static function, a documented function
    with signature and name, an undocumented variable with a name only,
    and an undocumented member with neither. *)
Definition el (t : string) (attrs : list (string * string))
    (txt : option string) (cs : list element) : element :=
  Element t (list_to_map attrs) txt cs.

Definition member_f : element :=
  el "memberdef" [("kind", "function"); ("static", "no"); ("id", "a_8c_1f")] None
    [ el "definition" [] (Some "int f") [];
      el "name" [] (Some "f") [];
      el "briefdescription" [] None [el "para" [] (Some "Adds.") []];
      el "detaileddescription" [] None [];
      el "location" [("file", "src/a.c")] None [] ].

Definition member_v : element :=
  el "memberdef" [("kind", "variable"); ("static", "no"); ("id", "a_8c_1v")] None
    [ el "name" [] (Some "v") [];
      el "briefdescription" [] None [];
      el "location" [("file", "src/other.c")] None [] ].

Definition member_anon : element :=
  el "memberdef" [("kind", "enum"); ("static", "no"); ("id", "a_8c_1e")] None
    [ el "briefdescription" [] None [] ].

Definition member_static : element :=
  el "memberdef" [("kind", "function"); ("static", "yes"); ("id", "a_8c_1s")] None
    [ el "definition" [] (Some "static int s") [];
      el "name" [] (Some "s") [];
      el "location" [("file", "src/static.c")] None [] ].

Definition tree_a : element :=
  el "doxygen" [] None
    [ el "compounddef" [("id", "a_8c"); ("kind", "file")] None
        [ el "compoundname" [] (Some "a.c") [];
          el "sectiondef" [("kind", "func")] None
            [member_static; member_f; member_v; member_anon] ] ].

(** An index with a directory and a file, and the record of the file. *)
Definition index_a : element :=
  el "doxygenindex" [] None
    [ el "compound" [("refid", "dir_68267d1309a1af8e8297ef4c3efbcdba");
                     ("kind", "dir")] None
        [el "name" [] (Some "src") []];
      el "compound" [("refid", "a_8c"); ("kind", "file")] None
        [el "name" [] (Some "a.c") []] ].

Definition fs_a : filesystem :=
  {[ "xml/index.xml" := Document index_a; "xml/a_8c.xml" := Document tree_a ]}.

Definition table_a : filetable :=
  [ ("src/a.c",
     [ {[ Some "int f" := true; Some "v" := false; Some "a_8c_1e" := false ]} ]) ].

(** A record with one documented function. *)
Definition tree_doc : element :=
  el "doxygen" [] None
    [ el "compounddef" [("id", "a_8c"); ("kind", "file")] None
        [ el "sectiondef" [("kind", "func")] None [member_f] ] ].

Definition fs_doc : filesystem :=
  {[ "xml/index.xml" := Document index_a; "xml/a_8c.xml" := Document tree_doc ]}.

(** An index without compounds. *)
Definition fs_empty : filesystem :=
  {[ "xml/index.xml" := Document (el "doxygenindex" [] None []) ]}.

(** An index whose record is not there. *)
Definition fs_no_record : filesystem :=
  {[ "xml/index.xml" := Document index_a ]}.

(** A member with an empty [definition] element, a name and an id, and
    a record that holds it. *)
Definition member_blank : element :=
  el "memberdef" [("kind", "variable"); ("static", "no"); ("id", "a_8c_1g")] None
    [ el "definition" [] None [];
      el "name" [] (Some "g") [];
      el "briefdescription" [] None [] ].

Definition tree_blank : element :=
  el "doxygen" [] None
    [ el "compounddef" [("id", "a_8c"); ("kind", "file")] None
        [ el "sectiondef" [("kind", "var")] None [member_blank] ] ].

(** A threshold beyond the largest [float], with [--noerror]. *)
Definition ns_huge : namespace :=
  {| dir := "xml"; noerror := true; threshold := 2 ^ 1024; excludedirs := [] |}.

(** ** Vocabulary of the further properties *)

(** [d] lies strictly below [e] in the tree. *)
Inductive descends (e : element) : element → Prop :=
| descends_child c : c ∈ children e → descends e c
| descends_step c d : c ∈ children e → descends c d → descends e d.

(** The height of an element. *)
Fixpoint depth (e : element) : nat :=
  match e with
  | Element _ _ _ cs =>
      S ((fix depth_all (l : list element) : nat :=
            match l with
            | [] => 0%nat
            | c :: l' => Nat.max (depth c) (depth_all l')
            end) cs)
  end.

(** The [file] attribute of the first [location] child of a member,
    when it is a non-empty string. *)
Definition located (m : element) : option string :=
  match find_child m "location" with
  | Some loc =>
      match get loc "file" with
      | Some s => if bool_decide (s = "") then None else Some s
      | None => None
      end
  | None => None
  end.

(** The first such attribute among the members that are considered. *)
Definition first_file (ms : list element) : option string :=
  head (omap located (considered ms)).

(** The children of a member that can describe it. *)
Definition description_tags : list string :=
  ["briefdescription"; "detaileddescription"; "inbodydescription"].

(** The file that holds the record of a compound of the index. *)
Definition entry_file (path : string) (entry : element) : string :=
  path_join path (py_str (get entry "refid") ++ ".xml")%string.

(** The record that a compound adds to the table, if any: none for a
    directory, none for a record without symbols. *)
Definition entry_record (fs : filesystem) (path : string) (entry : element)
  : option (string * symmap) :=
  match get entry "kind" with
  | Some kind =>
      if str_in kind "dir" then None
      else
        match fs !! entry_file path entry with
        | Some (Document tree) =>
            let r := parse_tree (entry_file path entry) tree in
            if bool_decide (r.2 = ∅) then None else Some r
        | _ => None
        end
  | None => None
  end.

(** The distinct elements of a list, in the order in which they first
    occur. *)
Definition seen (acc : list string) (l : list string) : list string :=
  fold_left (λ acc x, if bool_decide (x ∈ acc) then acc else acc ++ [x]) l acc.

Definition first_occurrences (l : list string) : list string := seen [] l.

(** Adding a record to the table, as the loop of [parse] does. *)
Definition add_record (files : filetable) (r : string * symmap) : filetable :=
  od_set files r.1 (default [] (od_get files r.1) ++ [r.2]).

(** The values of [kind] that the test [kind in ('dir')] lets through
    as directories: the substrings of ["dir"]. *)
Definition dir_kinds : list string := [""; "d"; "i"; "r"; "di"; "ir"; "dir"].

(** A line of the listing: the line of a file or of a name. *)
Definition body_line (l : outline) : bool :=
  match l with
  | FileLine _ _ _ _ | SymLine _ => true
  | _ => false
  end.

(** The paths that are not excluded, in the order of the table. *)
Definition listed (files : filetable) (exclude_dirs : list string)
  : list string :=
  filter (λ f, excluded exclude_dirs f = false) (keys files).

(** The undocumented names of a path, as the loop of [report] collects
    them. *)
Definition undocumented (files : filetable) (f : string) : list (option string) :=
  flagged false (default [] (od_get files f)).

(** Names that [sorted] puts in order without comparing [None]: fewer
    than two of them, or strings only. *)
Definition sortable (l : list (option string)) : bool :=
  (length l <? 2)%nat || forallb (λ x, bool_decide (is_Some x)) l.

(** The verdict on [Y] documented symbols of [T], as a comparison of
    integers: the threshold has to be exceeded. *)
Definition verdict_of (threshold Y T : Z) : pynum :=
  if bool_decide (threshold * T < 100 * Y) then PInt 0
  else PFloat (Qred (inject_Z threshold - Qred (inject_Z (Y * 100) / inject_Z T))).

(** What [report] returns or raises, without the sorting and the
    printing. *)
Definition report_outcome (files : filetable) (exclude_dirs : list string)
    (threshold : Z) : result pynum :=
  let paths := listed files exclude_dirs in
  if negb (forallb (λ f, sortable (undocumented files f)) paths)
  then raise TypeError
  else if bool_decide (paths = []) then raise ZeroDivisionError
  else if negb (in_float_range threshold) then raise OverflowError
  else
    let t := grand_totals files exclude_dirs in
    ok (verdict_of threshold t.1 (t.1 + t.2)).

(** The two counts shown by the lines of files in an output. *)
Definition line_counts (out : stdout) : list (Z * Z) :=
  omap (λ l, match l with
             | FileLine _ _ y t => Some (y, t)
             | _ => None
             end) out.

(** Two files at 50% and one at 100%. *)
Definition files_tied : filetable :=
  [ ("first.c", [record_of ["a"] ["b"]]);
    ("full.c", [record_of ["c"] []]);
    ("second.c", [record_of ["d"] ["e"]]) ].

(** * Properties *)

(** ** The monads *)

Lemma rbind_ok {A B} (m : result A) (k : A → result B) (b : B) :
  rbind m k = inr b → ∃ a, m = inr a ∧ k a = inr b.
Proof. destruct m as [e|a]; simpl; [discriminate | eauto]. Qed.

Lemma appends_ret {A} (a : A) : appends (ioret a).
Proof. intros out. unfold ioret; simpl. by rewrite app_nil_r. Qed.

Lemma appends_lift {A} (m : result A) : appends (lift m).
Proof. intros out. unfold lift; simpl. by rewrite app_nil_r. Qed.

Lemma appends_print l : appends (print l).
Proof. by intros out. Qed.

Lemma appends_bind {A B} (m : io A) (k : A → io B) :
  appends m → (∀ a, appends (k a)) → appends (iobind m k).
Proof.
  intros Hm Hk out. unfold iobind. rewrite (Hm out).
  destruct (m []) as [o1 [e|a]]; simpl; [done|].
  rewrite (Hk a (out ++ o1)), (Hk a o1). simpl. by rewrite app_assoc.
Qed.

Lemma appends_print_each ls : appends (print_each ls).
Proof.
  induction ls as [|l ls IH]; simpl.
  - apply appends_ret.
  - apply appends_bind; [apply appends_print | by intros _].
Qed.

Lemma print_each_out ls : print_each ls [] = (ls, ok tt).
Proof.
  induction ls as [|l ls IH]; [done|].
  simpl. unfold iobind, print. simpl.
  rewrite (appends_print_each ls [l]), IH. done.
Qed.

(** ** Sorting: the pure insertion sort behind [py_sorted] *)
Section PureSort.
Context {A : Type} (ltb : A → A → bool).

Lemma insert_by_perm x l : insert_by ltb x l ≡ₚ x :: l.
Proof.
  induction l as [|y l IH]; simpl; [done|].
  destruct (ltb y x); [|done].
  rewrite IH. apply Permutation_swap.
Qed.

Lemma isort_perm l : isort ltb l ≡ₚ l.
Proof.
  induction l as [|x l IH]; simpl; [done|].
  by rewrite insert_by_perm, IH.
Qed.

Context (lt : A → A → result bool).
Hypothesis lt_sound : ∀ x y b, lt x y = inr b → b = ltb x y.

Lemma py_insert_pure x l r : py_insert lt x l = inr r → r = insert_by ltb x l.
Proof.
  revert r. induction l as [|y l IH]; simpl; intros r Hr.
  - by injection Hr as <-.
  - apply rbind_ok in Hr as (b & Hb & Hr).
    apply lt_sound in Hb as ->.
    destruct (ltb y x).
    + apply rbind_ok in Hr as (r' & Hr' & Hr).
      injection Hr as <-. by rewrite (IH _ Hr').
    + by injection Hr as <-.
Qed.

Lemma py_sorted_pure l r : py_sorted lt l = inr r → r = isort ltb l.
Proof.
  revert r. induction l as [|x l IH]; simpl; intros r Hr.
  - by injection Hr as <-.
  - apply rbind_ok in Hr as (r' & Hr' & Hr).
    rewrite <-(IH _ Hr'). by apply py_insert_pure.
Qed.

End PureSort.

(** The insertion sort sorts, for a comparison that decides a total
    preorder. *)
Section SortSorts.
Context {A : Type} (ltb : A → A → bool) (le : relation A).
Hypothesis ltb_le : ∀ x y, ltb x y = true → le x y.
Hypothesis nltb_le : ∀ x y, ltb x y = false → le y x.
Hypothesis le_trans : ∀ x y z, le x y → le y z → le x z.

Lemma insert_by_sorted x l :
  StronglySorted le l → StronglySorted le (insert_by ltb x l).
Proof.
  induction 1 as [|y l Hl IH Hy]; simpl.
  - repeat constructor.
  - destruct (ltb y x) eqn:E.
    + constructor; [done|].
      rewrite (insert_by_perm ltb x l). constructor; [|done]. by apply ltb_le.
    + apply nltb_le in E.
      constructor; [by constructor|].
      constructor; [done|].
      eapply Forall_impl; [exact Hy|].
      intros z Hz. by apply le_trans with y.
Qed.

Lemma isort_sorted l : StronglySorted le (isort ltb l).
Proof.
  induction l as [|x l IH]; simpl; [constructor|].
  by apply insert_by_sorted.
Qed.

End SortSorts.

Lemma isort_fmap {A B} (f : A → B) (ltA : A → A → bool) (ltB : B → B → bool) l :
  (∀ x y, ltB (f x) (f y) = ltA x y) →
  isort ltB (f <$> l) = f <$> isort ltA l.
Proof.
  intros Hf. induction l as [|x l IH]; [done|].
  rewrite fmap_cons. simpl. rewrite IH. clear IH.
  induction (isort ltA l) as [|y r IH]; [done|].
  rewrite fmap_cons. simpl. rewrite Hf. destruct (ltA y x); [|done].
  by rewrite IH.
Qed.

(** Sorting by a rational key. *)
Section KeySort.
Context {A : Type} (key : A → Q).

Lemma Qltb_lt a b : Qltb a b = true ↔ (a < b)%Q.
Proof.
  unfold Qltb. rewrite Qlt_alt. destruct (a ?= b)%Q; split; congruence.
Qed.

Lemma Qltb_ge a b : Qltb a b = false ↔ (b <= a)%Q.
Proof.
  unfold Qltb. rewrite Qge_alt. destruct (a ?= b)%Q; split; congruence.
Qed.

Lemma isort_key_sorted l : StronglySorted (key_le key) (isort (key_ltb key) l).
Proof.
  apply isort_sorted; unfold key_ltb, key_le.
  - intros x y ?%Qltb_lt. by apply Qlt_le_weak.
  - by intros x y ?%Qltb_ge.
  - intros x y z. apply Qle_trans.
Qed.

End KeySort.

(** Sorting strings: [str < str] decides the lexicographic order. *)
Lemma string_ltb_trans x y z :
  String.ltb x y = true → String.ltb y z = true → String.ltb x z = true.
Proof.
  unfold String.ltb. intros Hxy Hyz.
  assert ((x ?= y)%string = Lt) as H1 by (by destruct (x ?= y)%string).
  assert ((y ?= z)%string = Lt) as H2 by (by destruct (y ?= z)%string).
  apply String_as_OT.cmp_lt in H1, H2.
  pose proof (String_as_OT.lt_trans _ _ _ H1 H2) as H3.
  apply String_as_OT.cmp_lt in H3. unfold String_as_OT.cmp in H3.
  by rewrite H3.
Qed.

Lemma string_leb_nltb x y : String.leb x y = negb (String.ltb y x).
Proof.
  unfold String.leb, String.ltb. rewrite (String.compare_antisym x y).
  by destruct (y ?= x)%string.
Qed.

Lemma string_leb_trans x y z :
  String.leb x y = true → String.leb y z = true → String.leb x z = true.
Proof.
  rewrite !string_leb_nltb, !negb_true_iff.
  intros Hyx Hzy. destruct (String.ltb z x) eqn:Hzx; [|done].
  destruct (String.ltb x y) eqn:Hxy.
  - by rewrite (string_ltb_trans z x y) in Hzy.
  - assert (x = y) as ->; [|congruence].
    apply String.compare_eq_iff. unfold String.ltb in Hyx, Hxy.
    rewrite (String.compare_antisym y x) in Hyx.
    by destruct (x ?= y)%string.
Qed.

Lemma isort_string_sorted l :
  StronglySorted (λ x y, String.leb x y = true) (isort String.ltb l).
Proof.
  apply isort_sorted.
  - intros x y H. rewrite string_leb_nltb, negb_true_iff.
    destruct (String.ltb y x) eqn:E; [|done].
    pose proof (string_ltb_trans _ _ _ H E) as Hxx.
    unfold String.ltb in Hxx.
    assert ((x ?= x)%string = Eq) as Hr; [|by rewrite Hr in Hxx].
    pose proof (String.compare_antisym x x) as Ha.
    by destruct (x ?= x)%string.
  - intros x y H. by rewrite string_leb_nltb, H.
  - apply string_leb_trans.
Qed.

Lemma StronglySorted_rev {A} (R : relation A) (l : list A) :
  StronglySorted R l → StronglySorted (flip R) (rev l).
Proof.
  induction 1 as [|x l Hl IH Hx]; simpl; [constructor|].
  apply StronglySorted_app_2; [|done|repeat constructor].
  intros a b Ha Hb. apply list_elem_of_singleton in Hb as ->.
  rewrite Forall_forall in Hx. apply Hx.
  apply list_elem_of_In. apply in_rev. by apply list_elem_of_In.
Qed.

Lemma StronglySorted_sublist {A} (R : relation A) (l k : list A) :
  l `sublist_of` k → StronglySorted R k → StronglySorted R l.
Proof.
  induction 1 as [|x l k Hs IH|x l k Hs IH]; intros Hk.
  - constructor.
  - apply StronglySorted_inv in Hk as [Hk Hx].
    constructor; [by apply IH|].
    rewrite Forall_forall in *. intros y Hy. apply Hx.
    by eapply elem_of_sublist.
  - apply StronglySorted_inv in Hk as [Hk _]. by apply IH.
Qed.

(** ** The report *)
Section ReportFacts.
Context (files : filetable) (exclude_dirs : list string) (ns : namespace).

Lemma printed_files_syms ds : printed_files (SymLine <$> ds) = [].
Proof. by induction ds. Qed.

Lemma file_lt_sound a b r :
  file_lt files a b = inr r → r = key_ltb (coverage files) a b.
Proof.
  unfold file_lt, file_cmp, key_ltb, coverage. intros H.
  apply rbind_ok in H as (c & H & Hr). injection Hr as <-.
  apply rbind_ok in H as (ca & -> & H).
  apply rbind_ok in H as (cb & -> & H). injection H as <-.
  unfold py_gt, py_lt.
  destruct (Qltb (pyval ca) (pyval cb)) eqn:E; simpl.
  - apply Qltb_lt in E.
    assert (Qltb (pyval cb) (pyval ca) = false) as ->; [|done].
    apply Qltb_ge. by apply Qlt_le_weak.
  - by destruct (Qltb (pyval cb) (pyval ca)).
Qed.

Lemma report_file_unfold f :
  report_file files f [] =
    match od_get files f with
    | None => ([], inl KeyError)
    | Some [] => ([], inr (0, 0))
    | Some defs =>
        let doc_yes := doc_count true defs in
        let doc_no := doc_count false defs in
        match py_truediv (py_mul (PInt doc_yes) (PFloat 100))
                         (PInt (doc_yes + doc_no)) with
        | inl e => ([], inl e)
        | inr doc_per =>
            let line := FileLine (pyval doc_per) f doc_yes (doc_yes + doc_no) in
            match py_sorted key_lt (flagged false defs) with
            | inl e => ([line], inl e)
            | inr ds => (line :: (SymLine <$> ds), inr (doc_yes, doc_no))
            end
        end
    end.
Proof.
  unfold report_file, iobind, lift, od_item.
  destruct (od_get files f) as [[|d defs]|]; simpl; try done.
  destruct (py_truediv _ _) as [e|p]; simpl; [done|].
  destruct (py_sorted _ _) as [e|ds]; simpl; [done|].
  rewrite (appends_print_each _ [_]), print_each_out. done.
Qed.

Lemma appends_report_file f : appends (report_file files f).
Proof.
  unfold report_file.
  apply appends_bind; [apply appends_lift|]. intros defs.
  destruct (bool_decide _); [apply appends_ret|].
  apply appends_bind; [apply appends_lift|]. intros p.
  apply appends_bind; [apply appends_print|]. intros _.
  apply appends_bind; [apply appends_lift|]. intros ds.
  apply appends_bind; [apply appends_print_each|]. intros _.
  apply appends_ret.
Qed.

Lemma appends_report_loop fs ty tn :
  appends (report_loop files exclude_dirs fs ty tn).
Proof.
  revert ty tn. induction fs as [|f fs IH]; intros ty tn; simpl.
  - apply appends_ret.
  - destruct (excluded _ _); [apply IH|].
    apply appends_bind; [apply appends_report_file|].
    intros [y n]. apply IH.
Qed.

Lemma report_loop_cons f fs ty tn :
  report_loop files exclude_dirs (f :: fs) ty tn [] =
    if excluded exclude_dirs f then report_loop files exclude_dirs fs ty tn []
    else match report_file files f [] with
         | (out, inl e) => (out, inl e)
         | (out, inr (y, n)) =>
             let r := report_loop files exclude_dirs fs (ty + y) (tn + n) [] in
             (out ++ r.1, r.2)
         end.
Proof.
  simpl. destruct (excluded _ _); [done|].
  unfold iobind. destruct (report_file files f []) as [out [e|[y n]]]; [done|].
  apply appends_report_loop.
Qed.

(** What one turn prints for a path that is not excluded. *)
Lemma report_file_printed f :
  excluded exclude_dirs f = false →
  let r := report_file files f [] in
  (printed_files r.1 = [] ∧
   (included files exclude_dirs f = true → ∃ e, r.2 = inl e)) ∨
  (printed_files r.1 = [(f, coverage files f)] ∧
   included files exclude_dirs f = true ∧
   ∃ c, get_coverage files f = inr c).
Proof.
  intros Hex. rewrite report_file_unfold.
  unfold included, coverage, get_coverage, od_item. rewrite Hex. simpl.
  destruct (od_get files f) as [[|d defs]|]; simpl; [left|..|left].
  - split; [done|discriminate].
  - destruct (py_truediv _ _) as [e|p] eqn:Hp; simpl.
    + left. eauto.
    + right. destruct (py_sorted _ _); simpl;
        rewrite ?printed_files_syms; eauto.
  - split; [done|discriminate].
Qed.

Lemma report_loop_printed fs ty tn :
  let r := report_loop files exclude_dirs fs ty tn [] in
  ∃ l, printed_files r.1 = (λ f, (f, coverage files f)) <$> l ∧
       l `prefix_of` filter (λ f, included files exclude_dirs f = true) fs ∧
       Forall (λ f, ∃ c, get_coverage files f = inr c) l ∧
       (∀ v, r.2 = inr v → l = filter (λ f, included files exclude_dirs f = true) fs).
Proof.
  revert ty tn. induction fs as [|f fs IH]; intros ty tn.
  - exists []. simpl. repeat split; done.
  - rewrite report_loop_cons.
    destruct (excluded exclude_dirs f) eqn:Hex.
    { assert (included files exclude_dirs f = false) as Hin by (unfold included; by rewrite Hex).
      rewrite filter_cons_False by congruence. apply IH. }
    pose proof (report_file_printed f Hex) as Hf. cbn zeta in Hf.
    destruct (report_file files f []) as [out [e|[y n]]]; cbn [fst snd] in *.
    + destruct Hf as [[Hp _]|(Hp & Hin & Hc)].
      * exists []. rewrite Hp. repeat split; try done. apply prefix_nil.
      * exists [f]. rewrite Hp, filter_cons_True by done.
        repeat split; try done.
        -- apply prefix_cons, prefix_nil.
        -- by constructor.
    + destruct (IH (ty + y) (tn + n)) as (l & Hl & Hpre & Hall & Hok).
      cbn zeta. cbn [fst snd].
      unfold printed_files in *. rewrite omap_app, Hl.
      destruct Hf as [[Hp Hin]|(Hp & Hin & Hc)]; rewrite Hp.
      * destruct (included files exclude_dirs f) eqn:E.
        { destruct Hin as [e He]; [done|discriminate]. }
        rewrite filter_cons_False by congruence.
        exists l. by repeat split.
      * rewrite filter_cons_True by done. exists (f :: l). repeat split.
        -- by apply prefix_cons.
        -- by constructor.
        -- intros v Hv. f_equal. by eapply Hok.
Qed.

End ReportFacts.

Lemma report_unfold files exclude_dirs ns :
  report files exclude_dirs ns [] =
    match py_sorted (file_lt files) (keys files) with
    | inl e => ([], inl e)
    | inr files_sorted =>
        match report_loop files exclude_dirs (rev files_sorted) 0 0 [] with
        | (out, inl e) => (out, inl e)
        | (out, inr (total_yes, total_no)) =>
            match py_truediv (PInt (total_yes * 100))
                             (PInt (total_yes + total_no)) with
            | inl e => (out, inl e)
            | inr total_per =>
                (out ++ [BlankLine; TotalLine (pyval total_per)],
                 match py_sub (PInt (threshold ns)) total_per with
                 | inl e => inl e
                 | inr deficit =>
                     inr (if py_gt total_per (PInt (threshold ns)) then PInt 0
                          else deficit)
                 end)
            end
        end
    end.
Proof.
  unfold report, iobind, lift, print, ioret.
  destruct (py_sorted _ _) as [e|l]; [done|].
  destruct (report_loop _ _ _ _ _ _) as [out [e|[ty tn]]]; [done|].
  destruct (py_truediv _ _) as [e|p]; [done|].
  rewrite <-app_assoc. by destruct (py_sub _ _).
Qed.

(** The subtraction of a [float] from an [int]. *)
Lemma py_sub_int_float x q :
  py_sub (PInt x) (PFloat q) =
    if in_float_range x then inr (PFloat (Qred (inject_Z x - q)))
    else inl OverflowError.
Proof. unfold py_sub, py_float. by destruct (in_float_range x). Qed.

Lemma py_sub_raises a b e : py_sub a b = inl e → e = OverflowError.
Proof.
  unfold py_sub, py_float.
  destruct a as [x|p], b as [y|q]; try done;
    destruct (in_float_range _); by intros [= <-].
Qed.

Lemma fmap_fst_pair {A B} (g : A → B) (k : list A) :
  ((λ x, (x, g x)) <$> k).*1 = k.
Proof. induction k as [|x k IH]; [done|]. by rewrite !fmap_cons, IH. Qed.

Lemma printed_files_app out1 out2 :
  printed_files (out1 ++ out2) = printed_files out1 ++ printed_files out2.
Proof. apply omap_app. Qed.

(** What [report] lists, in full: the lines of files are those of a
    prefix of the included paths, taken from the sorted keys read
    backwards; all of them when the report completes. *)
Lemma report_printed files exclude_dirs ns :
  let r := report files exclude_dirs ns [] in
  ∃ l, printed_files r.1 = (λ f, (f, coverage files f)) <$> l ∧
       l `prefix_of` filter (λ f, included files exclude_dirs f = true)
                       (rev (isort (key_ltb (coverage files)) (keys files))) ∧
       Forall (λ f, ∃ c, get_coverage files f = inr c) l ∧
       (∀ v, r.2 = inr v →
             l = filter (λ f, included files exclude_dirs f = true)
                   (rev (isort (key_ltb (coverage files)) (keys files)))).
Proof.
  cbn zeta. rewrite report_unfold.
  destruct (py_sorted _ _) as [e|l] eqn:Hs.
  { exists []. repeat split; try done. apply prefix_nil. }
  apply (py_sorted_pure (key_ltb (coverage files))) in Hs as ->;
    [|apply file_lt_sound].
  pose proof (report_loop_printed files exclude_dirs
    (rev (isort (key_ltb (coverage files)) (keys files))) 0 0)
    as (l & Hl & Hpre & Hall & Hok).
  cbn zeta in *.
  destruct (report_loop _ _ _ _ _ _) as [out [e|[ty tn]]]; cbn [fst snd] in *.
  { exists l. by repeat split. }
  destruct (py_truediv _ _) as [e|p]; cbn [fst snd].
  { exists l. by repeat split. }
  exists l. rewrite printed_files_app, Hl. simpl. rewrite app_nil_r.
  repeat split; try done. intros v ?. by eapply Hok.
Qed.

(** ** C1: the order of the report *)

(** C1, as stated, fails: for files at 10%, 90% and 50% the report
    lists 90%, 50%, 10%, which is not ascending. *)
Lemma report_order_not_ascending :
  printed_files (report files_10_90_50 [] ns_default []).1
    = [("high.c", 90%Q); ("mid.c", 50%Q); ("low.c", 10%Q)] ∧
  ¬ StronglySorted (λ a b, (a.2 <= b.2)%Q)
      (printed_files (report files_10_90_50 [] ns_default []).1).
Proof.
  assert (printed_files (report files_10_90_50 [] ns_default []).1
    = [("high.c", 90%Q); ("mid.c", 50%Q); ("low.c", 10%Q)]) as E
    by (vm_compute; reflexivity).
  split; [exact E|].
  rewrite E. intros H.
  apply StronglySorted_inv in H as [_ H].
  apply Forall_inv in H. simpl in H. revert H. apply Qlt_not_le. reflexivity.
Qed.

(** C1, amended: the report lists the included paths in descending
    order of their coverage, highest first ([sorted] ascending, then
    [reverse]).  Each line of a file is that of a path that is not
    excluded and shows the value of [get_coverage]; when the report
    completes, the paths listed are exactly the included ones. *)
Theorem report_order_descending files exclude_dirs ns :
  let r := report files exclude_dirs ns [] in
  let listed := printed_files r.1 in
  StronglySorted (λ a b, (b.2 <= a.2)%Q) listed ∧
  Forall (λ a, excluded exclude_dirs a.1 = false ∧
               ∃ c, get_coverage files a.1 = inr c ∧ pyval c = a.2) listed ∧
  (∀ v, r.2 = inr v →
        listed.*1 ≡ₚ filter (λ f, included files exclude_dirs f = true)
                       (keys files)).
Proof.
  cbn zeta.
  destruct (report_printed files exclude_dirs ns) as (l & -> & Hpre & Hall & Hok).
  set (sorted := isort (key_ltb (coverage files)) (keys files)) in *.
  split; [|split].
  - apply (StronglySorted_fmap _ (flip (key_le (coverage files)))); [done|].
    assert (StronglySorted (flip (key_le (coverage files)))
              (filter (λ f, included files exclude_dirs f = true) (rev sorted)))
      as Hs.
    { eapply StronglySorted_sublist; [apply sublist_filter|].
      apply StronglySorted_rev, isort_key_sorted. }
    destruct Hpre as [k Hk]. rewrite Hk in Hs.
    by apply StronglySorted_app_1_l in Hs.
  - apply Forall_fmap. rewrite Forall_forall in *. intros f Hf. simpl.
    split.
    + eapply elem_of_prefix in Hf; [|exact Hpre].
      apply list_elem_of_filter in Hf as [Hf _].
      unfold included in Hf. by destruct (excluded exclude_dirs f).
    + destruct (Hall f Hf) as [c Hc]. exists c. split; [done|].
      unfold coverage. by rewrite Hc.
  - intros v Hv. rewrite (Hok v Hv).
    rewrite fmap_fst_pair.
    apply filter_Permutation. rewrite <-Permutation_rev. apply isort_perm.
Qed.

(** ** C2: the grand total and the verdict *)

(** C2: with 4 of 7 documented and threshold 80, the total is the
    float 400/7 (the [/] of Python 3 is true division) and the verdict
    the float 160/7 = 22.857..., not the integer 80 - 57 = 23 that
    truncating division gives; [sys.exit] of a float ends with status 1. *)
Theorem report_verdict_not_integer :
  report files_two_groups [] ns_default [] =
    ([FileLine 100 "A.c" 3 3; FileLine 25 "B.c" 1 4;
      SymLine (Some "b2"); SymLine (Some "b3"); SymLine (Some "b4");
      BlankLine; TotalLine (400 # 7)],
     inr (PFloat (160 # 7))) ∧
  (∀ z : Z, ¬ (160 # 7 == inject_Z z)%Q) ∧
  80 - (4 * 100) `quot` (4 + 3) = 23 ∧
  sys_exit (PFloat (160 # 7)) = 1.
Proof.
  split; [vm_compute; reflexivity|].
  split; [|split; reflexivity].
  intros z. unfold Qeq. simpl. lia.
Qed.

(** The same report as text. *)
Example report_two_groups_text :
  render <$> (report files_two_groups [] ns_default []).1 =
    [ "100% - A.c - (3 of 3)";
      " 25% - B.c - (1 of 4)";
      String (Ascii.ascii_of_nat 9) " b2";
      String (Ascii.ascii_of_nat 9) " b3";
      String (Ascii.ascii_of_nat 9) " b4";
      "";
      "57% API documentation coverage" ].
Proof. vm_compute. reflexivity. Qed.

(** ** C3: the empty corpus *)

Lemma od_get_keys {V} (d : odict V) (k : string) :
  k ∈ keys d → is_Some (od_get d k).
Proof.
  induction d as [|[k' v] d IH]; simpl.
  - by intros ?%elem_of_nil.
  - intros [->|H]%elem_of_cons; case_bool_decide; eauto. done.
Qed.

Lemma py_insert_perm {A} (lt : A → A → result bool) x l r :
  py_insert lt x l = inr r → r ≡ₚ x :: l.
Proof.
  revert r. induction l as [|y l IH]; simpl; intros r Hr.
  - by injection Hr as <-.
  - apply rbind_ok in Hr as (b & Hb & Hr). destruct b.
    + apply rbind_ok in Hr as (r' & Hr' & Hr). injection Hr as <-.
      rewrite (IH _ Hr'). apply Permutation_swap.
    + by injection Hr as <-.
Qed.

Lemma py_sorted_perm {A} (lt : A → A → result bool) l r :
  py_sorted lt l = inr r → r ≡ₚ l.
Proof.
  revert r. induction l as [|x l IH]; simpl; intros r Hr.
  - by injection Hr as <-.
  - apply rbind_ok in Hr as (r' & Hr' & Hr).
    apply py_insert_perm in Hr. by rewrite Hr, (IH _ Hr').
Qed.

(** A sort raises only what one of its comparisons raises. *)
Lemma py_insert_raises {A} (lt : A → A → result bool) x l e :
  py_insert lt x l = inl e → ∃ y, y ∈ l ∧ lt y x = inl e.
Proof.
  induction l as [|y l IH]; simpl; [discriminate|].
  destruct (lt y x) as [e'|b] eqn:Hb; simpl.
  - intros [= ->]. exists y. split; [left|done].
  - destruct b; [|discriminate].
    destruct (py_insert lt x l) as [e'|r]; simpl; [|discriminate].
    intros [= ->]. destruct IH as (z & Hz & He); [done|].
    exists z. split; [by right|done].
Qed.

Lemma py_sorted_raises {A} (lt : A → A → result bool) l e :
  py_sorted lt l = inl e → ∃ x y, x ∈ l ∧ y ∈ l ∧ lt x y = inl e.
Proof.
  induction l as [|x l IH]; simpl; [discriminate|].
  destruct (py_sorted lt l) as [e'|r] eqn:Hr; simpl.
  - intros [= ->]. destruct IH as (a & b & Ha & Hb & He); [done|].
    exists a, b. repeat split; [by right|by right|done].
  - intros (y & Hy & He)%py_insert_raises.
    exists y, x. repeat split; [|left|done].
    right. by rewrite <-(py_sorted_perm _ _ _ Hr).
Qed.

Lemma py_truediv_raises a b e : py_truediv a b = inl e → e = ZeroDivisionError.
Proof. unfold py_truediv. destruct (Qeq_bool _ _); [by intros [= <-]|done]. Qed.

Lemma get_coverage_raises (files : filetable) f e :
  f ∈ keys files → get_coverage files f = inl e → e = ZeroDivisionError.
Proof.
  intros [defs Hf]%od_get_keys. unfold get_coverage, od_item. rewrite Hf. simpl.
  destruct (bool_decide _); [done|]. apply py_truediv_raises.
Qed.

Lemma sorted_keys_raises (files : filetable) e :
  py_sorted (file_lt files) (keys files) = inl e → e = ZeroDivisionError.
Proof.
  intros (a & b & Ha & Hb & He)%py_sorted_raises.
  unfold file_lt, file_cmp in He.
  destruct (get_coverage files a) as [e1|ca] eqn:Ea; simpl in He.
  { simplify_eq. by apply (get_coverage_raises files a). }
  destruct (get_coverage files b) as [e2|cb] eqn:Eb; simpl in He; [|done].
  simplify_eq. by apply (get_coverage_raises files b).
Qed.

Lemma od_get_elem_of {V} (d : odict V) (k : string) (v : V) :
  od_get d k = Some v → (k, v) ∈ d.
Proof.
  induction d as [|[k' v'] d IH]; simpl; [done|].
  case_bool_decide; [intros [= ->]; subst; left|right; auto].
Qed.

Lemma report_loop_empty_corpus files exclude_dirs fs ty tn :
  empty_corpus files exclude_dirs →
  fs ⊆ keys files →
  let r := (report_loop files exclude_dirs fs ty tn []).2 in
  r = inl ZeroDivisionError ∨ r = inr (ty, tn).
Proof.
  intros Hemp. revert ty tn.
  induction fs as [|f fs IH]; intros ty tn Hsub; [by right|].
  rewrite report_loop_cons.
  assert (fs ⊆ keys files) as Hfs by set_solver.
  destruct (excluded exclude_dirs f) eqn:Hex; [by apply IH|].
  rewrite report_file_unfold.
  destruct (od_get_keys files f) as [defs Hf]; [set_solver|]. rewrite Hf.
  destruct defs as [|d defs].
  { cbn [fst snd]. rewrite !Z.add_0_r. by apply IH. }
  apply od_get_elem_of in Hf.
  unfold empty_corpus in Hemp. rewrite Forall_forall in Hemp.
  specialize (Hemp _ Hf Hex). cbn [fst snd] in Hemp.
  cbn zeta. rewrite Hemp. by left.
Qed.

(** C3: with zero documentable symbols across all the files that are
    not excluded, [report] ends in an unhandled [ZeroDivisionError];
    the empty table is the simplest case. *)
Theorem report_empty_corpus_raises files exclude_dirs ns :
  empty_corpus files exclude_dirs →
  (report files exclude_dirs ns []).2 = inl ZeroDivisionError.
Proof.
  intros Hemp. rewrite report_unfold.
  destruct (py_sorted _ _) as [e|l] eqn:Hs.
  { by apply sorted_keys_raises in Hs as ->. }
  apply py_sorted_perm in Hs.
  destruct (report_loop_empty_corpus files exclude_dirs (rev l) 0 0 Hemp)
    as [H|H].
  { intros x. rewrite <-Permutation_rev, Hs. done. }
  - cbn zeta in H. by destruct (report_loop _ _ _ _ _ _) as [out [e|[??]]];
      simpl in *; simplify_eq.
  - cbn zeta in H. by destruct (report_loop _ _ _ _ _ _) as [out [e|[??]]];
      simpl in *; simplify_eq.
Qed.

Lemma report_empty_corpus_raises_witness :
  (report [] [] ns_default []).2 = inl ZeroDivisionError ∧
  (report [("gen/a.c", [record_of ["f"] ["g"]])] ["gen"] ns_default []).2
    = inl ZeroDivisionError.
Proof.
  split.
  - apply report_empty_corpus_raises. constructor.
  - apply report_empty_corpus_raises.
    constructor; [|constructor]. simpl. discriminate.
Defined.

(** ** C4: the names listed beneath a file *)

Lemma key_lt_sound a b r : key_lt a b = inr r → r = ident_ltb a b.
Proof. unfold key_lt, ok, raise. destruct a, b; simpl; congruence. Qed.

(** [list.sort] succeeds on names only if there is a single [None] or
    none at all. *)
Lemma py_sorted_names l r :
  py_sorted key_lt l = inr r → l = [None] ∨ ∃ l0, l = Some <$> l0.
Proof.
  revert r. induction l as [|x l IH]; intros r Hr.
  { right. by exists []. }
  simpl in Hr. apply rbind_ok in Hr as (r' & Hr' & Hr).
  pose proof (py_sorted_perm _ _ _ Hr') as Hp.
  destruct r' as [|y r'].
  { apply Permutation_nil_l in Hp as <-.
    destruct x as [x|]; [right; by exists [x]|by left]. }
  simpl in Hr. destruct y as [y|], x as [x|]; try discriminate.
  destruct (IH _ Hr') as [->|[l0 ->]].
  - apply Permutation_singleton_r in Hp. discriminate.
  - right. by exists (x :: l0).
Qed.

Lemma py_sorted_names_sorted l r :
  py_sorted key_lt l = inr r → StronglySorted ident_le r.
Proof.
  intros Hr. destruct (py_sorted_names _ _ Hr) as [->|[l0 ->]].
  - injection Hr as <-. repeat constructor.
  - apply (py_sorted_pure ident_ltb) in Hr as ->; [|apply key_lt_sound].
    rewrite (isort_fmap Some String.ltb) by done.
    eapply StronglySorted_fmap; [|apply isort_string_sorted]. done.
Qed.

(** How often a name occurs among the undocumented names of the
    records: once per record that flags it. *)
Lemma count_NoDup {A} `{EqDecision A} (k : A) (l : list A) :
  NoDup l → length (filter (λ x, x = k) l) = if decide (k ∈ l) then 1%nat else 0%nat.
Proof.
  induction 1 as [|x l Hx Hl IH]; [done|].
  destruct (decide (x = k)) as [->|Hne].
  - rewrite filter_cons_True by done. simpl. rewrite IH.
    rewrite (decide_False (P := k ∈ l)) by done.
    by rewrite decide_True by left.
  - rewrite filter_cons_False by done. rewrite IH.
    destruct (decide (k ∈ l)).
    + by rewrite decide_True by by right.
    + rewrite decide_False; [done|]. by intros [->|?]%elem_of_cons.
Qed.

Lemma flagged_cons (b : bool) (d : symmap) (defs : list symmap) :
  flagged b (d :: defs) =
    (filter (λ kv, kv.2 = b) (map_to_list d)).*1 ++ flagged b defs.
Proof. done. Qed.

Lemma elem_of_flagged_record (b : bool) (d : symmap) (k : option string) :
  k ∈ (filter (λ kv, kv.2 = b) (map_to_list d)).*1 ↔ d !! k = Some b.
Proof.
  rewrite list_elem_of_fmap. split.
  - intros ([k' b'] & -> & [Hb Hin]%list_elem_of_filter). simpl in *. subst.
    by apply elem_of_map_to_list.
  - intros H. exists (k, b). split; [done|].
    apply list_elem_of_filter. split; [done|]. by apply elem_of_map_to_list.
Qed.

Lemma count_flagged (b : bool) (defs : list symmap) (k : option string) :
  length (filter (λ x, x = k) (flagged b defs)) =
  length (filter (λ d : symmap, d !! k = Some b) defs).
Proof.
  induction defs as [|d defs IH]; [done|].
  rewrite flagged_cons, filter_app, length_app, IH.
  rewrite count_NoDup.
  2:{ eapply sublist_NoDup; [apply (NoDup_fst_map_to_list d)|].
      apply fmap_sublist, sublist_filter. }
  destruct (decide (d !! k = Some b)) as [Hd|Hd].
  - rewrite filter_cons_True by done.
    rewrite decide_True by by apply elem_of_flagged_record. done.
  - rewrite filter_cons_False by done.
    rewrite decide_False by by rewrite elem_of_flagged_record. done.
Qed.

Section Segments.
Context (files : filetable) (exclude_dirs : list string).

Lemma report_file_completes f :
  completes files f →
  ∃ defs, od_get files f = Some defs ∧
          (report_file files f []).2 = inr (counts files f) ∧
          (defs = [] ∧ segment files f = [] ∨
           defs ≠ [] ∧
           ∃ p ds, py_truediv (py_mul (PInt (counts files f).1) (PFloat 100))
                              (PInt ((counts files f).1 + (counts files f).2)) = inr p ∧
                   py_sorted key_lt (flagged false defs) = inr ds ∧
                   segment files f = FileLine (pyval p) f (counts files f).1
                                        ((counts files f).1 + (counts files f).2)
                               :: (SymLine <$> ds)).
Proof.
  unfold completes, segment, counts. rewrite report_file_unfold.
  intros [yn H].
  destruct (od_get files f) as [[|d defs]|]; [| |done].
  { exists []. split; [done|]. split; [done|]. by left. }
  exists (d :: defs). split; [done|]. cbn zeta in *. cbn [default].
  destruct (py_truediv _ _) as [e|p]; [done|].
  destruct (py_sorted _ _) as [e|ds]; [done|].
  cbn [fst snd]. split; [done|]. right. split; [done|]. by exists p, ds.
Qed.

Lemma report_loop_ok fs ty tn out v :
  report_loop files exclude_dirs fs ty tn [] = (out, inr v) →
  let l := filter (λ f, excluded exclude_dirs f = false) fs in
  out = flat_map (segment files) l ∧
  Forall (completes files) l ∧
  v = (ty + foldr (λ f acc, (counts files f).1 + acc) 0 l,
       tn + foldr (λ f acc, (counts files f).2 + acc) 0 l).
Proof.
  revert ty tn out. induction fs as [|f fs IH]; intros ty tn out.
  { intros [= <- <-]. cbn. rewrite !Z.add_0_r. by repeat split. }
  rewrite report_loop_cons.
  destruct (excluded exclude_dirs f) eqn:Hex.
  { rewrite filter_cons_False by congruence. apply IH. }
  rewrite filter_cons_True by done.
  destruct (report_file files f []) as [o1 [e|[y n]]] eqn:Hf; [done|].
  destruct (report_loop _ _ fs _ _ _) as [o2 r2] eqn:Hl. cbn [fst snd].
  intros [= <- ->].
  destruct (IH _ _ _ Hl) as (-> & Hall & ->).
  assert (completes files f) as Hc by (exists (y, n); by rewrite Hf).
  destruct (report_file_completes f Hc) as (defs & _ & Hyn & _).
  rewrite Hf in Hyn. cbn [snd] in Hyn. injection Hyn as Hy Hn.
  assert (segment files f = o1) as Hseg by (unfold segment; by rewrite Hf).
  subst y n. simpl. rewrite Hseg.
  split; [done|]. split; [by constructor|].
  f_equal; lia.
Qed.

Lemma leading_syms_segments l rest :
  Forall (completes files) l → leading_syms rest = [] →
  leading_syms (flat_map (segment files) l ++ rest) = [].
Proof.
  induction 1 as [|f l Hf Hl IH]; intros Hrest; [done|].
  cbn [flat_map]. rewrite <-app_assoc.
  destruct (report_file_completes f Hf)
    as (defs & _ & _ & [[_ ->]|(_ & p & ds & _ & _ & ->)]); [|done].
  by apply IH.
Qed.

Lemma leading_syms_app ds rest :
  leading_syms rest = [] → leading_syms ((SymLine <$> ds) ++ rest) = ds.
Proof.
  intros Hr. induction ds as [|d ds IH]; [done|].
  rewrite fmap_cons. cbn [app leading_syms]. by rewrite IH.
Qed.

Lemma beneath_syms f ds rest :
  beneath f ((SymLine <$> ds) ++ rest) = beneath f rest.
Proof. by induction ds. Qed.

Lemma beneath_segments f defs l rest :
  Forall (completes files) l → f ∈ l → od_get files f = Some defs → defs ≠ [] →
  leading_syms rest = [] →
  ∃ ds, py_sorted key_lt (flagged false defs) = inr ds ∧
        beneath f (flat_map (segment files) l ++ rest) = ds.
Proof.
  intros Hall Hin Hf Hne Hrest.
  induction Hall as [|g l Hg Hl IH]; [by apply elem_of_nil in Hin|].
  cbn [flat_map]. rewrite <-app_assoc.
  destruct (report_file_completes g Hg)
    as (defs' & Hg' & _ & [[-> ->]|(_ & p & ds & _ & Hds & ->)]).
  - apply elem_of_cons in Hin as [->|Hin]; [congruence|]. by apply IH.
  - cbn [app beneath]. case_bool_decide as Hgf.
    + subst g. rewrite Hf in Hg'. injection Hg' as <-.
      exists ds. split; [done|].
      apply leading_syms_app. by apply leading_syms_segments.
    + rewrite beneath_syms.
      apply elem_of_cons in Hin as [->|Hin]; [done|]. by apply IH.
Qed.

End Segments.

(** C4, as stated, fails: a name undocumented in two records of a path
    is printed twice beneath it. *)
Lemma undocumented_listed_twice :
  beneath "dup.c" (report files_two_records [] ns_default []).1
    = [Some "foo"; Some "foo"] ∧
  ¬ NoDup (beneath "dup.c" (report files_two_records [] ns_default []).1).
Proof.
  assert (beneath "dup.c" (report files_two_records [] ns_default []).1
    = [Some "foo"; Some "foo"]) as E by (vm_compute; reflexivity).
  split; [exact E|]. rewrite E.
  intros [H _]%NoDup_cons. apply H. left.
Qed.

(** C4, amended: when the report completes, the names printed beneath
    the line of an included path are in alphabetical order and are the
    names flagged undocumented in the records of that path, joined
    record after record: a name appears once for every record in which
    it is undocumented. *)
Theorem report_undocumented_listed files exclude_dirs ns out v f defs :
  report files exclude_dirs ns [] = (out, inr v) →
  excluded exclude_dirs f = false →
  od_get files f = Some defs → defs ≠ [] →
  StronglySorted ident_le (beneath f out) ∧
  ∀ k, length (filter (λ x, x = k) (beneath f out)) =
       length (filter (λ d : symmap, d !! k = Some false) defs).
Proof.
  intros Hrep Hex Hf Hne. rewrite report_unfold in Hrep.
  destruct (py_sorted _ _) as [e|l] eqn:Hs; [done|].
  apply py_sorted_perm in Hs.
  destruct (report_loop _ _ _ _ _ _) as [o1 [e|[ty tn]]] eqn:Hl; [done|].
  destruct (py_truediv _ _) as [e|p]; [done|].
  injection Hrep as <- _.
  apply report_loop_ok in Hl as (-> & Hall & _).
  destruct (beneath_segments files f defs _ [BlankLine; TotalLine (pyval p)]
    Hall) as (ds & Hds & ->); try done.
  { apply list_elem_of_filter. split; [done|].
    rewrite <-Permutation_rev, Hs.
    apply od_get_elem_of in Hf.
    apply list_elem_of_fmap. by exists (f, defs). }
  split; [by eapply py_sorted_names_sorted|].
  intros k. rewrite <-count_flagged.
  apply py_sorted_perm in Hds. by rewrite Hds.
Qed.

Lemma report_undocumented_listed_witness :
  StronglySorted ident_le
    (beneath "dup.c" (report files_two_records [] ns_default []).1) ∧
  ∀ k, length (filter (λ x, x = k)
         (beneath "dup.c" (report files_two_records [] ns_default []).1)) =
       length (filter (λ d : symmap, d !! k = Some false)
         [record_of [] ["foo"]; record_of ["bar"] ["foo"]]).
Proof.
  apply (report_undocumented_listed files_two_records [] ns_default _
           (PFloat (140 # 3)) "dup.c").
  - vm_compute. reflexivity.
  - reflexivity.
  - reflexivity.
  - discriminate.
Defined.

(** ** parse_file: which members are counted, and under which name *)

Lemma parse_member_skipped st m : skipped m = true → parse_member st m = st.
Proof. intros H. destruct st. unfold parse_member. by rewrite H. Qed.

Lemma parse_member_considered st m :
  skipped m = false →
  (parse_member st m).2 = <[member_name m := is_documented m]> st.2.
Proof. intros H. destruct st. unfold parse_member. by rewrite H. Qed.

Lemma fold_parse_member_considered ms st :
  fold_left parse_member ms st = fold_left parse_member (considered ms) st.
Proof.
  revert st. induction ms as [|m ms IH]; intros st; [done|].
  unfold considered. destruct (skipped m) eqn:E.
  - rewrite filter_cons_False by congruence. simpl.
    rewrite parse_member_skipped by done. apply IH.
  - rewrite filter_cons_True by done. simpl. apply IH.
Qed.

Lemma last_is_Some {A} (l : list A) : l ≠ [] → is_Some (last l).
Proof.
  induction l as [|x [|y l] IH]; [done|eauto|]. intros _.
  rewrite last_cons_cons. by apply IH.
Qed.

(** Last write wins: the flag stored under a name is that of the last
    considered member with this name. *)
Lemma fold_parse_member_lookup ms st k :
  (fold_left parse_member ms st).2 !! k =
    match last (filter (λ m, member_name m = k) (considered ms)) with
    | Some m => Some (is_documented m)
    | None => st.2 !! k
    end.
Proof.
  revert st. induction ms as [|m ms IH]; intros st; [done|].
  simpl. rewrite IH. unfold considered.
  destruct (skipped m) eqn:E.
  { rewrite filter_cons_False by congruence.
    by rewrite parse_member_skipped by done. }
  rewrite filter_cons_True by done.
  rewrite parse_member_considered by done.
  destruct (decide (member_name m = k)) as [<-|Hne].
  - rewrite filter_cons_True by done. rewrite lookup_insert_eq.
    destruct (filter _ (filter _ ms)) as [|m' l]; [done|].
    rewrite last_cons_cons.
    by destruct (last_is_Some (m' :: l)) as [x ->].
  - rewrite filter_cons_False by done. by rewrite lookup_insert_ne.
Qed.

Lemma parse_members_lookup ms k :
  (parse_members ms).2 !! k =
    is_documented <$> last (filter (λ m, member_name m = k) (considered ms)).
Proof.
  unfold parse_members. rewrite fold_parse_member_lookup.
  by destruct (last _).
Qed.

Lemma parse_tree_definitions fullpath tree :
  (parse_tree fullpath tree).2 =
    (parse_members (findall_descendant tree "compounddef" "memberdef")).2.
Proof. unfold parse_tree. by destruct (parse_members _). Qed.

Example parse_tree_a :
  parse_tree "xml/a_8c.xml" tree_a =
    ("src/a.c",
     {[ Some "int f" := true; Some "v" := false; Some "a_8c_1e" := false ]}).
Proof. vm_compute. reflexivity. Qed.

(** ** C5: the documentability filter *)

(** C5: a member definition is passed over exactly when its kind is
    [function] and its [static] attribute is [yes]; the record is what
    the other members alone give, and each of them has an entry in the
    symbol mapping. *)
Theorem static_functions_skipped fullpath tree :
  let ms := findall_descendant tree "compounddef" "memberdef" in
  (∀ m, skipped m = true ↔
        get m "kind" = Some "function" ∧ get m "static" = Some "yes") ∧
  parse_members ms = parse_members (considered ms) ∧
  (∀ k, is_Some ((parse_tree fullpath tree).2 !! k) ↔
        ∃ m, m ∈ ms ∧ skipped m = false ∧ member_name m = k).
Proof.
  cbn zeta. split; [|split].
  - intros m. unfold skipped.
    rewrite andb_true_iff, !bool_decide_eq_true. done.
  - apply fold_parse_member_considered.
  - intros k. rewrite parse_tree_definitions, parse_members_lookup.
    rewrite fmap_is_Some. split.
    + intros [m Hm]. apply last_Some_elem_of in Hm.
      apply list_elem_of_filter in Hm as [Hk Hm].
      apply list_elem_of_filter in Hm as [Hs Hm]. eauto.
    + intros (m & Hm & Hs & Hk). apply last_is_Some.
      intros Hnil. eapply (filter_nil_not_elem_of _ _ m Hnil); [done|].
      apply list_elem_of_filter. done.
Qed.

(** ** C6: the name of a member *)

(** The claim as the specification has it fails: a member with an
    empty [definition] element is stored under [None], although it has
    a name and an id. *)
Lemma identifier_missing :
  findall_descendant tree_blank "compounddef" "memberdef" = [member_blank] ∧
  skipped member_blank = false ∧
  (∃ d_nam, find_child member_blank "name" = Some d_nam ∧
            text d_nam = Some "g") ∧
  get member_blank "id" = Some "a_8c_1g" ∧
  member_name member_blank = None ∧
  (parse_tree "xml/a_8c.xml" tree_blank).2 = {[ None := false ]}.
Proof.
  split; [by vm_compute|]. split; [done|].
  split; [by eexists|]. split; [by vm_compute|]. split; [done|].
  by vm_compute.
Qed.

(** C6: a considered member is stored under the text of its
    [definition] child if it has such a child, else under the text of
    its [name] child if it has one, else under its [id] attribute: the
    presence of the child decides, not its text.  The key is a string
    exactly when the element so chosen has text, or the [id] attribute
    is there; it is [None] otherwise.  In both cases the mapping has an
    entry under that key, flagged as the last considered member of that
    key is. *)
Theorem identifier_resolution fullpath tree m :
  let ms := findall_descendant tree "compounddef" "memberdef" in
  m ∈ ms → skipped m = false →
  (∀ d_def, find_child m "definition" = Some d_def →
            member_name m = text d_def) ∧
  (∀ d_nam, find_child m "definition" = None →
            find_child m "name" = Some d_nam →
            member_name m = text d_nam) ∧
  (find_child m "definition" = None → find_child m "name" = None →
   member_name m = get m "id") ∧
  (is_Some (member_name m) ↔
   (∃ d_def, find_child m "definition" = Some d_def ∧ is_Some (text d_def)) ∨
   (find_child m "definition" = None ∧
    ∃ d_nam, find_child m "name" = Some d_nam ∧ is_Some (text d_nam)) ∨
   (find_child m "definition" = None ∧ find_child m "name" = None ∧
    is_Some (get m "id"))) ∧
  ∃ m', last (filter (λ x, member_name x = member_name m) (considered ms))
          = Some m' ∧
        (parse_tree fullpath tree).2 !! member_name m
          = Some (is_documented m').
Proof.
  cbn zeta. intros Hm Hs.
  split; [|split; [|split; [|split]]].
  - unfold member_name. by intros d ->.
  - unfold member_name. by intros d -> ->.
  - unfold member_name. by intros -> ->.
  - unfold member_name.
    destruct (find_child m "definition") as [d|] eqn:Hd.
    { split.
      - intros H. left. by exists d.
      - intros [(d' & [= <-] & H)|[[? _]|[? _]]]; done. }
    destruct (find_child m "name") as [n|] eqn:Hn.
    { split.
      - intros H. right. left. split; [done|]. by exists n.
      - intros [(d' & ? & _)|[[_ (n' & [= <-] & H)]|(_ & ? & _)]]; done. }
    split.
    + intros H. right. right. done.
    + intros [(d' & ? & _)|[[_ (n' & ? & _)]|(_ & _ & H)]]; done.
  - rewrite parse_tree_definitions, parse_members_lookup.
    destruct (last_is_Some
      (filter (λ x, member_name x = member_name m)
         (considered (findall_descendant tree "compounddef" "memberdef"))))
      as [m' Hm'].
    { intros Hnil. eapply (filter_nil_not_elem_of _ _ m Hnil); [done|].
      apply list_elem_of_filter. done. }
    exists m'. by rewrite Hm'.
Qed.

Lemma identifier_resolution_witness :
  member_name member_f = Some "int f" ∧
  member_name member_v = Some "v" ∧
  member_name member_anon = Some "a_8c_1e" ∧
  ¬ is_Some (member_name member_blank) ∧
  (parse_tree "xml/a_8c.xml" tree_a).2 !! member_name member_f = Some true.
Proof.
  assert (findall_descendant tree_a "compounddef" "memberdef"
          = [member_static; member_f; member_v; member_anon]) as E
    by (vm_compute; reflexivity).
  destruct (identifier_resolution "xml/a_8c.xml" tree_a member_f)
    as (Hf & _ & _ & _ & m' & Hl & Hv);
    [rewrite E; apply list_elem_of_In; simpl; tauto|reflexivity|].
  destruct (identifier_resolution "xml/a_8c.xml" tree_a member_v)
    as (_ & Hn & _ & _);
    [rewrite E; apply list_elem_of_In; simpl; tauto|reflexivity|].
  destruct (identifier_resolution "xml/a_8c.xml" tree_a member_anon)
    as (_ & _ & Hi & _);
    [rewrite E; apply list_elem_of_In; simpl; tauto|reflexivity|].
  destruct (identifier_resolution "xml/a_8c.xml" tree_blank member_blank)
    as (_ & _ & _ & Hb & _);
    [apply list_elem_of_In; vm_compute; tauto|reflexivity|].
  split; [exact (Hf _ eq_refl)|].
  split; [exact (Hn _ eq_refl eq_refl)|].
  split; [exact (Hi eq_refl eq_refl)|].
  split.
  { intros H. apply Hb in H as [(d & [= <-] & H)|[[H _]|[H _]]];
      [by destruct H|discriminate H..]. }
  rewrite Hv. vm_compute in Hl. injection Hl as <-. reflexivity.
Defined.

(** ** C10: the tables that parse returns *)

Lemma od_set_Forall {V} (P : V → Prop) (d : odict V) k v :
  Forall (λ kv, P kv.2) d → P v → Forall (λ kv, P kv.2) (od_set d k v).
Proof.
  intros Hd Hv. induction Hd as [|[k' v'] d Hk Hd IH]; simpl.
  - by repeat constructor.
  - case_bool_decide; constructor; done.
Qed.

Lemma od_item_Forall {V} (P : V → Prop) (d : odict V) k v :
  Forall (λ kv, P kv.2) d → od_item d k = inr v → P v.
Proof.
  unfold od_item. intros Hd Hv.
  destruct (od_get d k) as [v'|] eqn:E; [|done]. injection Hv as ->.
  apply od_get_elem_of in E. rewrite Forall_forall in Hd. by apply (Hd _ E).
Qed.

Lemma parse_entry_ok fs path files entry files' :
  table_ok files → parse_entry fs path files entry = inr files' →
  table_ok files'.
Proof.
  unfold parse_entry, table_ok. intros Hok H.
  destruct (get entry "kind") as [kind|]; [|done].
  destruct (str_in kind "dir"); [by injection H as <-|].
  apply rbind_ok in H as ([sourcefile definitions] & _ & H). cbn [fst snd] in H.
  case_bool_decide as Hne; [by injection H as <-|].
  destruct (od_mem files sourcefile).
  - apply rbind_ok in H as (l & Hl & H). injection H as <-.
    apply (od_set_Forall records_ok); [done|].
    destruct (od_item_Forall records_ok _ _ _ Hok Hl) as [_ Hall].
    split; [by destruct l|]. apply Forall_app. split; [done|]. by constructor.
  - injection H as <-.
    apply (od_set_Forall records_ok); [done|].
    split; [done|]. by constructor.
Qed.

Lemma parse_entries_ok fs path files entries files' :
  table_ok files → parse_entries fs path files entries = inr files' →
  table_ok files'.
Proof.
  revert files. induction entries as [|entry rest IH]; intros files Hok H.
  - by injection H as <-.
  - simpl in H. apply rbind_ok in H as (files1 & H1 & H).
    eapply IH; [|exact H]. by eapply parse_entry_ok.
Qed.

Lemma parse_ok fs ns path files :
  parse fs ns path = inr files → table_ok files.
Proof.
  unfold parse. destruct (negb _); [done|]. intros H.
  apply rbind_ok in H as (tree & _ & H).
  eapply parse_entries_ok; [|exact H]. constructor.
Qed.

(** The two counts of a path add up to the sizes of its records. *)
Lemma doc_count_total (defs : list symmap) :
  doc_count true defs + doc_count false defs =
  Z.of_nat (foldr (λ d acc, size d + acc)%nat 0%nat defs).
Proof.
  unfold doc_count. rewrite <-Nat2Z.inj_add. f_equal.
  induction defs as [|d defs IH]; [done|].
  rewrite !flagged_cons, !length_app, !length_fmap. cbn [foldr].
  rewrite <-IH, <-(length_map_to_list d).
  assert (∀ l : list (option string * bool),
    (length (filter (λ kv, kv.2 = true) l) +
     length (filter (λ kv, kv.2 = false) l) = length l)%nat) as Hl.
  { induction l as [|[k [|]] l IHl]; [done|..].
    - rewrite filter_cons_True, filter_cons_False by done. simpl. lia.
    - rewrite filter_cons_False, filter_cons_True by done. simpl. lia. }
  specialize (Hl (map_to_list d)). lia.
Qed.

Lemma doc_count_pos (defs : list symmap) :
  defs ≠ [] → Forall (λ d : symmap, d ≠ ∅) defs →
  0 < doc_count true defs + doc_count false defs.
Proof.
  intros Hne Hall. rewrite doc_count_total.
  destruct Hall as [|d defs Hd _]; [done|]. cbn [foldr].
  apply map_size_non_empty_iff in Hd. lia.
Qed.

Lemma doc_count_nonneg (b : bool) (defs : list symmap) :
  0 ≤ doc_count b defs.
Proof. unfold doc_count. lia. Qed.

Lemma py_truediv_int a b :
  b ≠ 0 → py_truediv a (PInt b) = inr (PFloat (Qred (pyval a / inject_Z b))).
Proof.
  intros Hb. unfold py_truediv. simpl.
  destruct (Qeq_bool (inject_Z b) 0) eqn:E; [|done].
  apply Qeq_bool_iff in E. unfold Qeq in E. simpl in E. lia.
Qed.

Lemma table_ok_coverage files f :
  table_ok files → f ∈ keys files →
  ∃ defs, od_item files f = inr defs ∧ defs ≠ [] ∧
          0 < doc_count true defs + doc_count false defs ∧
          ∃ q, get_coverage files f = inr (PFloat q).
Proof.
  intros Hok [defs Hf]%od_get_keys.
  assert (od_item files f = inr defs) as Hitem by (unfold od_item; by rewrite Hf).
  destruct (od_item_Forall records_ok _ _ _ Hok Hitem) as [Hne Hall].
  pose proof (doc_count_pos defs Hne Hall) as Hpos.
  exists defs. repeat split; try done.
  unfold get_coverage. rewrite Hitem. simpl.
  rewrite bool_decide_eq_false_2 by done.
  rewrite py_truediv_int by lia. eauto.
Qed.

Example parse_fs_a : parse fs_a ns_default "xml" = inr table_a.
Proof. vm_compute. reflexivity. Qed.

(** C10: in a table returned by [parse] every path has a non-empty
    list of non-empty symbol mappings; so for every path of the table
    the divisor [doc_yes + doc_no] is positive, and [get_coverage]
    returns the quotient, never the 100 of its guard. *)
Theorem parse_table_nonempty fs ns path files :
  parse fs ns path = inr files →
  Forall (λ kv, kv.2 ≠ [] ∧ Forall (λ d : symmap, d ≠ ∅) kv.2) files ∧
  ∀ f, f ∈ keys files →
       ∃ defs, od_item files f = inr defs ∧ defs ≠ [] ∧
               0 < doc_count true defs + doc_count false defs ∧
               ∃ q, get_coverage files f = inr (PFloat q).
Proof.
  intros H%parse_ok. split; [exact H|].
  intros f Hf. by apply table_ok_coverage.
Qed.

Lemma parse_table_nonempty_witness :
  Forall (λ kv, kv.2 ≠ [] ∧ Forall (λ d : symmap, d ≠ ∅) kv.2) table_a ∧
  ∀ f, f ∈ keys table_a →
       ∃ defs, od_item table_a f = inr defs ∧ defs ≠ [] ∧
               0 < doc_count true defs + doc_count false defs ∧
               ∃ q, get_coverage table_a f = inr (PFloat q).
Proof.
  apply (parse_table_nonempty fs_a ns_default "xml" table_a).
  vm_compute. reflexivity.
Defined.

(** ** C9: --noerror *)

(** Without [--noerror], [FATAL] ends the process with status 1, and a
    coverage below the threshold with a status that is not 0. *)
Example fatal_without_noerror :
  main ∅ ns_default = ([], 1) ∧ (main fs_a ns_default).2 = 1.
Proof. split; vm_compute; reflexivity. Qed.

(** What [parse] and [report] can raise. *)
Lemma read_xml_raises fs p e : read_xml fs p = inl e → escapes e.
Proof.
  unfold read_xml. destruct (fs !! p) as [[|root]|]; intros [= <-]; by intros c.
Qed.

Lemma parse_entry_raises fs path files entry e :
  parse_entry fs path files entry = inl e → escapes e.
Proof.
  unfold parse_entry.
  destruct (get entry "kind") as [kind|]; [|by intros [= <-] c].
  destruct (str_in kind "dir"); [done|].
  unfold parse_file.
  destruct (read_xml fs _) as [e'|tree] eqn:Hr; simpl.
  { intros [= <-]. by eapply read_xml_raises. }
  case_bool_decide; [done|].
  destruct (od_mem files _); [|done].
  unfold od_item. destruct (od_get files _); simpl; [done|].
  by intros [= <-] c.
Qed.

Lemma parse_entries_raises fs path files entries e :
  parse_entries fs path files entries = inl e → escapes e.
Proof.
  revert files. induction entries as [|entry rest IH]; intros files; [done|].
  simpl. destruct (parse_entry fs path files entry) as [e'|files'] eqn:He; simpl.
  - intros [= <-]. by eapply parse_entry_raises.
  - apply IH.
Qed.

Lemma parse_raises fs ns path e :
  parse fs ns path = inl e →
  e = SystemExit (if noerror ns then 0 else 1) ∨ escapes e.
Proof.
  unfold parse, FATAL. destruct (negb _); [intros [= <-]; by left|].
  destruct (read_xml fs _) as [e'|tree] eqn:Hr; simpl.
  - intros [= <-]. right. by eapply read_xml_raises.
  - intros H. right. by eapply parse_entries_raises.
Qed.

Lemma key_sort_raises l e : py_sorted key_lt l = inl e → e = TypeError.
Proof.
  intros (a & b & _ & _ & H)%py_sorted_raises.
  unfold key_lt, raise in H. destruct a, b; by simplify_eq.
Qed.

Lemma report_file_raises files f e :
  (report_file files f []).2 = inl e → escapes e.
Proof.
  rewrite report_file_unfold.
  destruct (od_get files f) as [[|d defs]|]; [done| |by intros [= <-] c].
  cbn zeta. destruct (py_truediv _ _) as [e'|p] eqn:Hp.
  { intros [= <-]. apply py_truediv_raises in Hp as ->. by intros c. }
  destruct (py_sorted _ _) as [e'|ds] eqn:Hs; [|done].
  intros [= <-]. apply key_sort_raises in Hs as ->. by intros c.
Qed.

Lemma report_loop_raises files exclude_dirs fs ty tn e :
  (report_loop files exclude_dirs fs ty tn []).2 = inl e → escapes e.
Proof.
  revert ty tn. induction fs as [|f fs IH]; intros ty tn; [done|].
  rewrite report_loop_cons. destruct (excluded exclude_dirs f); [apply IH|].
  destruct (report_file files f []) as [o1 [e'|[y n]]] eqn:Hf.
  - intros [= <-]. apply (report_file_raises files f). by rewrite Hf.
  - apply IH.
Qed.

Lemma report_raises files exclude_dirs ns e :
  (report files exclude_dirs ns []).2 = inl e → escapes e.
Proof.
  rewrite report_unfold.
  destruct (py_sorted _ _) as [e'|s] eqn:Hs.
  { intros [= <-]. apply sorted_keys_raises in Hs as ->. by intros c. }
  destruct (report_loop _ _ _ _ _ _) as [o1 [e'|[ty tn]]] eqn:Hl.
  { intros [= <-]. eapply report_loop_raises. by rewrite Hl. }
  destruct (py_truediv _ _) as [e'|p] eqn:Hp.
  { intros [= <-]. apply py_truediv_raises in Hp as ->. by intros c. }
  cbn [snd]. destruct (py_sub _ _) as [e'|d] eqn:Hd; [|done].
  intros [= <-]. apply py_sub_raises in Hd as ->. by intros c.
Qed.

Lemma escapes_status e : escapes e → exit_status e = 1.
Proof. destruct e; try done. intros H. by destruct (H code). Qed.

Lemma parse_fatal fs ns path code :
  parse fs ns path = inl (SystemExit code) →
  path_exists fs (path_join path "index.xml") = false ∧
  code = if noerror ns then 0 else 1.
Proof.
  unfold parse, FATAL.
  destruct (path_exists fs _); cbn [negb]; [|by intros [= <-]].
  destruct (read_xml fs _) as [e'|tree] eqn:Hr; simpl.
  - intros [= ->]. apply read_xml_raises in Hr. by destruct (Hr code).
  - intros H%parse_entries_raises. by destruct (H code).
Qed.

(** The claim as the specification has it fails: with [--noerror] and
    an index that names a record which is not there, [parse] raises,
    nothing catches the exception, and the status is 1. *)
Lemma noerror_status_one :
  noerror ns_noerror = true ∧
  parse fs_no_record ns_noerror (dir ns_noerror) = inl FileNotFoundError ∧
  main fs_no_record ns_noerror = ([], 1).
Proof. repeat split; vm_compute; reflexivity. Qed.

(** C9: with [--noerror] the process exits with status 0 whenever
    [parse] and [report] return, whatever verdict [report] returns, and
    [FATAL] (the index is missing) exits with status 0 too.  These are
    the only ways to status 0: an exception that nothing catches, as of
    a record that cannot be read, ends the process with status 1 also
    with [--noerror]. *)
Theorem noerror_exits_zero fs ns :
  noerror ns = true →
  (∀ A : Type, @FATAL A ns = raise (SystemExit 0)) ∧
  (path_exists fs (path_join (dir ns) "index.xml") = false →
   main fs ns = ([], 0)) ∧
  (∀ files out err,
     parse fs ns (dir ns) = inr files →
     report files (excludedirs ns) ns [] = (out, inr err) →
     main fs ns = (out, 0)) ∧
  ((main fs ns).2 = 0 ↔
   path_exists fs (path_join (dir ns) "index.xml") = false ∨
   ∃ files out err, parse fs ns (dir ns) = inr files ∧
                    report files (excludedirs ns) ns [] = (out, inr err)) ∧
  ((main fs ns).2 = 1 ↔
   ∃ e, escapes e ∧
        (parse fs ns (dir ns) = inl e ∨
         ∃ files out, parse fs ns (dir ns) = inr files ∧
                      report files (excludedirs ns) ns [] = (out, inl e))) ∧
  ((main fs ns).2 = 0 ∨ (main fs ns).2 = 1).
Proof.
  intros Hno. split; [|split; [|split]].
  - intros A. unfold FATAL. by rewrite Hno.
  - intros Hex. unfold main, parse, FATAL. by rewrite Hex, Hno.
  - intros files out err Hp Hr. unfold main. by rewrite Hp, Hr, Hno.
  - unfold main.
    destruct (parse fs ns (dir ns)) as [e|files] eqn:Hp.
    { cbn [snd]. destruct (parse_raises _ _ _ _ Hp) as [->|He].
      - apply parse_fatal in Hp as [Hex _]. rewrite Hno. cbn [exit_status].
        split; [|split; [|by left]].
        + split; [by left|done].
        + split; [done|]. intros (e & He & [[= <-]|(? & ? & ? & _)]); [|done].
          by destruct (He 0).
      - rewrite (escapes_status e He).
        split; [|split; [|by right]].
        + split; [done|]. intros [Hex|(? & ? & ? & ? & _)]; [|done].
          unfold parse, FATAL in Hp. rewrite Hex in Hp. cbn [negb] in Hp.
          injection Hp as <-. by destruct (He (if noerror ns then 0 else 1)).
        + split; [|done]. intros _. exists e. split; [done|by left]. }
    assert (path_exists fs (path_join (dir ns) "index.xml") = false → False)
      as Hidx.
    { intros Hex. unfold parse, FATAL in Hp. by rewrite Hex in Hp. }
    destruct (report files (excludedirs ns) ns []) as [out [e|err]] eqn:Hr.
    + cbn [snd].
      assert (escapes e) as He.
      { apply (report_raises files (excludedirs ns) ns). by rewrite Hr. }
      rewrite (escapes_status e He).
      split; [|split; [|by right]].
      * split; [done|]. intros [Hex|(? & ? & ? & [= <-] & Hr')]; [done|].
        rewrite Hr in Hr'. done.
      * split; [|done]. intros _. exists e. split; [done|]. right.
        by exists files, out.
    + cbn [snd]. rewrite Hno.
      split; [|split; [|by left]].
      * split; [|done]. intros _. right. by exists files, out, err.
      * split; [done|].
        intros (e & _ & [?|(? & ? & [= <-] & Hr')]); [done|].
        rewrite Hr in Hr'. done.
Qed.

Lemma noerror_exits_zero_witness :
  main ∅ ns_noerror = ([], 0) ∧ (main fs_a ns_noerror).2 = 0 ∧
  (main fs_no_record ns_noerror).2 = 1.
Proof.
  destruct (noerror_exits_zero ∅ ns_noerror eq_refl) as (_ & Hfatal & _).
  destruct (noerror_exits_zero fs_a ns_noerror eq_refl) as (_ & _ & Hrep & _).
  destruct (noerror_exits_zero fs_no_record ns_noerror eq_refl)
    as (_ & _ & _ & _ & Hone & _).
  split; [|split].
  - apply Hfatal. reflexivity.
  - erewrite Hrep; [reflexivity|exact parse_fs_a|vm_compute; reflexivity].
  - apply Hone. exists FileNotFoundError. split; [by intros c|].
    left. vm_compute. reflexivity.
Defined.

(** ** C8: a fully documented corpus *)

(** A sort succeeds when all its comparisons do. *)
Lemma py_insert_total {A} (lt : A → A → result bool) (P : A → Prop) x l :
  (∀ a b, P a → P b → ∃ r, lt a b = inr r) →
  P x → Forall P l → ∃ r, py_insert lt x l = inr r.
Proof.
  intros Hlt Hx. induction 1 as [|y l Hy Hl IH]; simpl; [by eexists|].
  destruct (Hlt y x Hy Hx) as [b ->]. simpl.
  destruct b; [|by eexists].
  destruct IH as [r ->]. simpl. by eexists.
Qed.

Lemma py_sorted_total {A} (lt : A → A → result bool) (P : A → Prop) l :
  (∀ a b, P a → P b → ∃ r, lt a b = inr r) →
  Forall P l → ∃ r, py_sorted lt l = inr r.
Proof.
  intros Hlt. induction 1 as [|x l Hx Hl IH]; simpl; [by eexists|].
  destruct IH as [r Hr]. rewrite Hr. simpl.
  apply (py_insert_total lt P); [done..|].
  apply py_sorted_perm in Hr. by rewrite Hr.
Qed.

Lemma file_lt_total (files : filetable) a b :
  (∃ c, get_coverage files a = inr c) → (∃ c, get_coverage files b = inr c) →
  ∃ r, file_lt files a b = inr r.
Proof.
  intros [ca Ha] [cb Hb]. unfold file_lt, file_cmp. rewrite Ha, Hb. simpl.
  by eexists.
Qed.

Lemma sorted_keys_total (files : filetable) :
  table_ok files → ∃ l, py_sorted (file_lt files) (keys files) = inr l.
Proof.
  intros Hok.
  apply (py_sorted_total _ (λ f, ∃ c, get_coverage files f = inr c)).
  - intros a b. apply file_lt_total.
  - apply Forall_forall. intros f Hf.
    destruct (table_ok_coverage files f Hok Hf) as (_ & _ & _ & _ & q & Hq).
    eauto.
Qed.

(** The loop runs to its end when every turn does. *)
Lemma report_loop_complete files exclude_dirs fs ty tn :
  let l := filter (λ f, excluded exclude_dirs f = false) fs in
  Forall (completes files) l →
  report_loop files exclude_dirs fs ty tn [] =
    (flat_map (segment files) l,
     inr (ty + foldr (λ f acc, (counts files f).1 + acc) 0 l,
          tn + foldr (λ f acc, (counts files f).2 + acc) 0 l)).
Proof.
  cbn zeta. revert ty tn. induction fs as [|f fs IH]; intros ty tn Hall.
  { simpl. unfold ioret. by rewrite !Z.add_0_r. }
  rewrite report_loop_cons.
  destruct (excluded exclude_dirs f) eqn:Hex.
  { rewrite filter_cons_False in * by congruence. by apply IH. }
  rewrite filter_cons_True in * by done.
  apply Forall_cons in Hall as [Hf Hall].
  destruct (report_file_completes files f Hf) as (defs & _ & Hyn & _).
  assert (segment files f = (report_file files f []).1) as Hseg by done.
  destruct (report_file files f []) as [o1 r1]. cbn [fst snd] in *. subst r1.
  destruct (counts files f) as [y n] eqn:Hc.
  rewrite (IH _ _ Hall). simpl. rewrite Hseg.
  unfold counts in Hc. injection Hc as <- <-.
  do 2 f_equal. f_equal; lia.
Qed.

Lemma flagged_false_documented (defs : list symmap) :
  Forall (λ d : symmap, ∀ k b, d !! k = Some b → b = true) defs →
  flagged false defs = [].
Proof.
  induction 1 as [|d defs Hd _ IH]; [done|].
  rewrite flagged_cons, IH, app_nil_r.
  destruct (filter _ (map_to_list d)) as [|[k b] l] eqn:E; [done|].
  assert ((k, b) ∈ filter (λ kv, kv.2 = false) (map_to_list d)) as Hin
    by (rewrite E; left).
  apply list_elem_of_filter in Hin as [Hb Hin]. simpl in Hb. subst b.
  apply elem_of_map_to_list in Hin. by apply Hd in Hin.
Qed.

Lemma all_documented_completes files f :
  table_ok files → all_documented files → f ∈ keys files →
  completes files f ∧ (counts files f).2 = 0 ∧ 0 < (counts files f).1.
Proof.
  intros Hok Hdoc Hf.
  destruct (table_ok_coverage files f Hok Hf)
    as (defs & Hitem & Hne & Hpos & _).
  unfold od_item in Hitem.
  destruct (od_get files f) as [defs'|] eqn:Hget; [|done].
  injection Hitem as ->.
  assert (flagged false defs = []) as Hno.
  { apply flagged_false_documented.
    apply od_get_elem_of in Hget. unfold all_documented in Hdoc.
    rewrite Forall_forall in Hdoc. apply (Hdoc _ Hget). }
  assert (doc_count false defs = 0) as Hzero
    by (unfold doc_count; by rewrite Hno).
  unfold completes, counts. rewrite report_file_unfold, Hget.
  cbn [default fst snd]. unfold id.
  split; [|split; [done|lia]].
  destruct defs as [|d defs]; [done|]. cbn zeta.
  rewrite py_truediv_int by lia. rewrite Hno. simpl. by eexists.
Qed.

Lemma sum_counts_documented files (l : list string) :
  table_ok files → all_documented files → l ⊆ keys files →
  foldr (λ f acc, (counts files f).2 + acc) 0 l = 0 ∧
  (l ≠ [] → 0 < foldr (λ f acc, (counts files f).1 + acc) 0 l) ∧
  0 ≤ foldr (λ f acc, (counts files f).1 + acc) 0 l.
Proof.
  intros Hok Hdoc. induction l as [|f l IH]; intros Hsub; [done|].
  destruct IH as (IH0 & _ & IH1); [set_solver|].
  destruct (all_documented_completes files f Hok Hdoc) as (_ & Hn & Hy);
    [set_solver|].
  cbn [foldr]. rewrite IH0, Hn. repeat split; lia.
Qed.

Lemma Qred_100 y : 0 < y → Qred (inject_Z (y * 100) / inject_Z y) = 100%Q.
Proof.
  intros Hy. change 100%Q with (Qred 100). apply Qred_complete.
  rewrite inject_Z_mult. field.
  intros H. unfold Qeq in H. simpl in H. lia.
Qed.

(** What does hold of a fully documented corpus: if the table is one
    that [parse] can return and has a path that is not excluded, the
    total is 100 and the verdict is zero for every threshold up to 100
    that converts to a [float]; it is the [int] 0 below 100 and the
    [float] 0.0 at 100. *)
Lemma report_all_documented files exclude_dirs ns :
  table_ok files → all_documented files →
  (∃ f, f ∈ keys files ∧ excluded exclude_dirs f = false) →
  threshold ns ≤ 100 → in_float_range (threshold ns) = true →
  ∃ out, report files exclude_dirs ns [] =
    (out ++ [BlankLine; TotalLine 100],
     inr (if bool_decide (threshold ns < 100) then PInt 0 else PFloat 0)).
Proof.
  intros Hok Hdoc (f & Hf & Hex) Hthr Hfit. rewrite report_unfold.
  destruct (sorted_keys_total files Hok) as [l Hl]. rewrite Hl.
  apply py_sorted_perm in Hl.
  set (fs := filter (λ f, excluded exclude_dirs f = false) (rev l)).
  assert (fs ⊆ keys files) as Hsub.
  { intros x [_ Hx]%list_elem_of_filter.
    by rewrite <-Permutation_rev, Hl in Hx. }
  assert (fs ≠ []) as Hne.
  { intros Hnil. eapply (filter_nil_not_elem_of _ _ f Hnil); [done|].
    by rewrite <-Permutation_rev, Hl. }
  rewrite report_loop_complete.
  2:{ apply Forall_forall. intros x Hx.
      by apply (all_documented_completes files x Hok Hdoc), Hsub. }
  fold fs.
  destruct (sum_counts_documented files fs Hok Hdoc Hsub) as (Hn & Hy & _).
  specialize (Hy Hne). rewrite Hn.
  set (y := foldr (λ f acc, (counts files f).1 + acc) 0 fs) in *.
  rewrite !Z.add_0_l, Z.add_0_r, py_truediv_int by lia.
  cbn [pyval]. rewrite Qred_100 by done.
  rewrite py_sub_int_float, Hfit.
  exists (flat_map (segment files) fs). f_equal. f_equal.
  unfold py_gt. cbn [pyval].
  case_bool_decide as Hlt.
  - assert (Qltb (inject_Z (threshold ns)) 100 = true) as ->; [|done].
    apply Qltb_lt. rewrite <-(Zlt_Qlt _ 100). done.
  - assert (Qltb (inject_Z (threshold ns)) 100 = false) as ->.
    { apply Qltb_ge. rewrite <-(Zle_Qle 100). lia. }
    assert (threshold ns = 100) as -> by lia. reflexivity.
Qed.

(** C8: where every symbol is documented the run need not pass.  With
    one documented function and threshold 100 the verdict is the float
    0.0, not the [int] 0, and [sys.exit] turns it into status 1; and on
    a corpus without symbols, all of which are documented, [report]
    raises and the status is 1 again. *)
Theorem all_documented_not_pass :
  parse fs_doc ns_100 "xml" = inr [("src/a.c", [ {[ Some "int f" := true ]} ])] ∧
  report [("src/a.c", [ {[ Some "int f" := true ]} ])] [] ns_100 [] =
    ([FileLine 100 "src/a.c" 1 1; BlankLine; TotalLine 100], inr (PFloat 0)) ∧
  (main fs_doc ns_100).2 = 1 ∧
  parse fs_empty ns_100 "xml" = inr [] ∧
  (main fs_empty ns_100).2 = 1.
Proof. repeat split; vm_compute; reflexivity. Qed.

(** ** C7: excluded paths *)

Lemma od_get_remove_ne {V} (d : odict V) (k g : string) :
  g ≠ k → od_get (od_remove d k) g = od_get d g.
Proof.
  intros Hne. unfold od_remove. induction d as [|[k' v] d IH]; [done|].
  destruct (decide (k' = k)) as [->|Hk].
  - rewrite filter_cons_False by (intros Hc; by apply Hc). simpl.
    by rewrite bool_decide_eq_false_2.
  - rewrite filter_cons_True by done. simpl. by rewrite IH.
Qed.

Lemma keys_remove {V} (d : odict V) (k : string) :
  keys (od_remove d k) = filter (λ g, g ≠ k) (keys d).
Proof.
  unfold od_remove, keys. induction d as [|[k' v] d IH]; [done|].
  rewrite fmap_cons. cbn [fst].
  destruct (decide (k' = k)) as [->|Hk].
  - rewrite !filter_cons_False by (intros Hc; by apply Hc). done.
  - rewrite !filter_cons_True by done. rewrite fmap_cons. by rewrite IH.
Qed.

Lemma filter_rev {A} (P : A → Prop) `{∀ x, Decision (P x)} (l : list A) :
  filter P (rev l) = rev (filter P l).
Proof.
  induction l as [|x l IH]; [done|]. simpl. rewrite filter_app, IH.
  destruct (decide (P x)).
  - rewrite !filter_cons_True by done. done.
  - rewrite !filter_cons_False by done. by rewrite app_nil_r.
Qed.

(** Filtering commutes with the stable sort. *)
Section SortFilter.
Context {A : Type} (ltb : A → A → bool) (le : relation A).
Hypothesis ltb_le : ∀ x y, ltb x y = true → le x y.
Hypothesis nltb_le : ∀ x y, ltb x y = false → le y x.
Hypothesis le_trans : ∀ x y z, le x y → le y z → le x z.
Hypothesis ltb_strict : ∀ x y, ltb x y = true → le y x → False.
Context (P : A → Prop) `{∀ x, Decision (P x)}.

Lemma insert_by_first x l :
  Forall (λ z, ltb z x = false) l → insert_by ltb x l = x :: l.
Proof. destruct 1 as [|y l Hy _]; simpl; [done|]. by rewrite Hy. Qed.

Lemma filter_insert_by x l :
  StronglySorted le l →
  filter P (insert_by ltb x l) =
    if decide (P x) then insert_by ltb x (filter P l) else filter P l.
Proof.
  induction 1 as [|y l Hl IH Hy]; simpl.
  { destruct (decide (P x)).
    - by rewrite filter_cons_True.
    - by rewrite filter_cons_False. }
  destruct (ltb y x) eqn:E.
  - destruct (decide (P y)) as [Hpy|Hpy].
    + rewrite !(filter_cons_True _ y) by done. rewrite IH.
      destruct (decide (P x)); [|done]. simpl. by rewrite E.
    + rewrite !(filter_cons_False _ y) by done. by rewrite IH.
  - destruct (decide (P x)) as [Hpx|Hpx].
    + rewrite filter_cons_True by done.
      rewrite insert_by_first; [done|].
      apply Forall_forall. intros z [_ Hz]%list_elem_of_filter.
      apply elem_of_cons in Hz as [->|Hz]; [done|].
      destruct (ltb z x) eqn:Ez; [|done]. exfalso.
      apply (ltb_strict z x Ez). apply le_trans with y; [by apply nltb_le|].
      rewrite Forall_forall in Hy. by apply Hy.
    + by rewrite filter_cons_False.
Qed.

Lemma filter_isort l : filter P (isort ltb l) = isort ltb (filter P l).
Proof.
  induction l as [|x l IH]; [done|]. simpl.
  rewrite filter_insert_by by by apply isort_sorted.
  destruct (decide (P x)).
  - rewrite filter_cons_True by done. simpl. by rewrite IH.
  - by rewrite filter_cons_False.
Qed.

End SortFilter.

(** A sort depends on its comparison only at the elements sorted. *)
Lemma py_insert_ext {A} (lt1 lt2 : A → A → result bool) x l :
  (∀ y, y ∈ l → lt1 y x = lt2 y x) → py_insert lt1 x l = py_insert lt2 x l.
Proof.
  induction l as [|y l IH]; intros Hext; [done|]. simpl.
  rewrite <-(Hext y) by left.
  destruct (lt1 y x) as [e|[|]]; simpl; [done| |done].
  rewrite IH; [done|]. intros z Hz. apply Hext. by right.
Qed.

Lemma py_sorted_ext {A} (lt1 lt2 : A → A → result bool) l :
  (∀ x y, x ∈ l → y ∈ l → lt1 x y = lt2 x y) →
  py_sorted lt1 l = py_sorted lt2 l.
Proof.
  induction l as [|x l IH]; intros Hext; [done|]. simpl.
  rewrite <-IH by (intros a b Ha Hb; apply Hext; by right).
  destruct (py_sorted lt1 l) as [e|r] eqn:Hr; simpl; [done|].
  apply py_insert_ext. intros y Hy. apply Hext; [|left].
  right. by rewrite <-(py_sorted_perm _ _ _ Hr).
Qed.

(** In a sort of two or more elements that succeeds, every element
    took part in a comparison that succeeded. *)
Lemma py_sorted_compared {A} (lt : A → A → result bool) (P : A → Prop) l r :
  (∀ x y b, lt x y = inr b → P x ∧ P y) →
  py_sorted lt l = inr r → (2 ≤ length l)%nat → Forall P l.
Proof.
  intros Hlt. revert r. induction l as [|x l IH]; intros r Hr Hlen.
  { simpl in Hlen. lia. }
  simpl in Hr. apply rbind_ok in Hr as (r' & Hr' & Hr).
  pose proof (py_sorted_perm _ _ _ Hr') as Hp.
  destruct r' as [|y r'].
  { apply Permutation_nil_l in Hp as <-. simpl in Hlen. lia. }
  simpl in Hr. apply rbind_ok in Hr as (b & Hb & _).
  destruct (Hlt _ _ _ Hb) as [Hy Hx].
  constructor; [done|].
  destruct l as [|z [|z' l]].
  - simpl in Hlen. lia.
  - apply Permutation_singleton_r in Hp. injection Hp as ->. by constructor.
  - eapply IH; [done|]. simpl. lia.
Qed.

Section Excluded.
Context (files : filetable) (exclude_dirs : list string) (ns : namespace).
Context (f : string).

Lemma get_coverage_remove g :
  g ≠ f → get_coverage (od_remove files f) g = get_coverage files g.
Proof.
  intros Hne. unfold get_coverage, od_item. by rewrite od_get_remove_ne.
Qed.

Lemma file_lt_remove a b :
  a ≠ f → b ≠ f → file_lt (od_remove files f) a b = file_lt files a b.
Proof.
  intros Ha Hb. unfold file_lt, file_cmp.
  by rewrite !get_coverage_remove.
Qed.

Lemma report_file_remove g :
  g ≠ f → report_file (od_remove files f) g [] = report_file files g [].
Proof.
  intros Hne. rewrite !report_file_unfold. by rewrite od_get_remove_ne.
Qed.

Lemma report_loop_remove fs ty tn :
  f ∉ fs →
  report_loop (od_remove files f) exclude_dirs fs ty tn [] =
  report_loop files exclude_dirs fs ty tn [].
Proof.
  revert ty tn. induction fs as [|g fs IH]; intros ty tn Hf; [done|].
  apply not_elem_of_cons in Hf as [Hne Hf].
  rewrite !report_loop_cons. destruct (excluded exclude_dirs g); [by apply IH|].
  rewrite report_file_remove by done.
  destruct (report_file files g []) as [out [e|[y n]]]; [done|].
  by rewrite IH.
Qed.

Lemma report_loop_skip fs ty tn :
  excluded exclude_dirs f = true →
  report_loop files exclude_dirs (filter (λ g, g ≠ f) fs) ty tn [] =
  report_loop files exclude_dirs fs ty tn [].
Proof.
  intros Hex. revert ty tn. induction fs as [|g fs IH]; intros ty tn; [done|].
  destruct (decide (g = f)) as [->|Hne].
  - rewrite filter_cons_False by (intros Hc; by apply Hc).
    rewrite (report_loop_cons _ _ f), Hex. apply IH.
  - rewrite filter_cons_True by done. rewrite !report_loop_cons.
    destruct (excluded exclude_dirs g); [by apply IH|].
    destruct (report_file files g []) as [out [e|[y n]]]; [done|].
    by rewrite IH.
Qed.

Lemma file_lt_defined a b r :
  file_lt files a b = inr r →
  (∃ c, get_coverage files a = inr c) ∧ (∃ c, get_coverage files b = inr c).
Proof.
  unfold file_lt, file_cmp. intros H.
  apply rbind_ok in H as (c & H & _).
  apply rbind_ok in H as (ca & Ha & H).
  apply rbind_ok in H as (cb & Hb & _). eauto.
Qed.

(** Sorting the keys without [f] gives the sorted keys without [f]. *)
Lemma py_sorted_filter l s :
  py_sorted (file_lt files) l = inr s →
  py_sorted (file_lt files) (filter (λ g, g ≠ f) l)
    = inr (filter (λ g, g ≠ f) s).
Proof.
  intros Hs.
  assert (∃ r, py_sorted (file_lt files) (filter (λ g, g ≠ f) l) = inr r)
    as [r Hr].
  { destruct (decide (2 ≤ length l)%nat) as [Hlen|Hlen].
    - apply (py_sorted_total _ (λ g, ∃ c, get_coverage files g = inr c)).
      { intros a b. apply file_lt_total. }
      pose proof (py_sorted_compared _ _ _ _ file_lt_defined Hs Hlen) as Hall.
      rewrite Forall_forall in Hall. apply Forall_forall.
      intros x [_ Hx]%list_elem_of_filter. by apply Hall.
    - destruct l as [|x [|y l]]; [by eexists| |simpl in Hlen; lia].
      destruct (decide (x ≠ f)).
      + rewrite filter_cons_True by done. by eexists.
      + rewrite filter_cons_False by done. by eexists. }
  rewrite Hr. f_equal.
  apply (py_sorted_pure (key_ltb (coverage files))) in Hs as ->;
    [|apply file_lt_sound].
  apply (py_sorted_pure (key_ltb (coverage files))) in Hr as ->;
    [|apply file_lt_sound].
  symmetry. apply (filter_isort _ (key_le (coverage files)));
    unfold key_ltb, key_le.
  - intros x y ?%Qltb_lt. by apply Qlt_le_weak.
  - by intros x y ?%Qltb_ge.
  - intros x y z. apply Qle_trans.
  - intros x y Hlt%Qltb_lt Hle. by apply Qlt_not_le in Hlt.
Qed.

End Excluded.

Lemma FileLine_printed p f y t out :
  FileLine p f y t ∈ out → (f, p) ∈ printed_files out.
Proof.
  intros H. unfold printed_files. apply list_elem_of_omap.
  by exists (FileLine p f y t).
Qed.

(** Removing an excluded path from the table changes nothing of a
    report that completes. *)
Lemma report_remove files exclude_dirs ns f v :
  excluded exclude_dirs f = true →
  (report files exclude_dirs ns []).2 = inr v →
  report (od_remove files f) exclude_dirs ns [] = report files exclude_dirs ns [].
Proof.
  intros Hex Hv. rewrite !report_unfold in *. rewrite keys_remove.
  destruct (py_sorted (file_lt files) (keys files)) as [e|s] eqn:Hs; [done|].
  rewrite (py_sorted_ext (file_lt (od_remove files f)) (file_lt files)).
  2:{ intros a b [Ha _]%list_elem_of_filter [Hb _]%list_elem_of_filter.
      by apply file_lt_remove. }
  rewrite (py_sorted_filter files f _ _ Hs).
  rewrite <-filter_rev, report_loop_remove.
  2:{ intros [Hf _]%list_elem_of_filter. by apply Hf. }
  by rewrite report_loop_skip.
Qed.

Lemma foldr_sum_perm {A} (g : A → Z) (l1 l2 : list A) :
  l1 ≡ₚ l2 →
  foldr (λ x acc, g x + acc) 0 l1 = foldr (λ x acc, g x + acc) 0 l2.
Proof.
  induction 1 as [|x l1 l2 _ IH|x y l|l1 l2 l3 _ IH1 _ IH2];
    cbn [foldr]; lia.
Qed.

Lemma sum_counts_perm files l1 l2 :
  l1 ≡ₚ l2 → sum_counts files l1 = sum_counts files l2.
Proof.
  intros Hp. unfold sum_counts.
  f_equal; by apply (foldr_sum_perm (λ g, _ (counts files g))).
Qed.

Lemma report_grand_totals files exclude_dirs ns out v :
  report files exclude_dirs ns [] = (out, inr v) →
  ∃ out' total_per,
    py_truediv (PInt ((grand_totals files exclude_dirs).1 * 100))
               (PInt ((grand_totals files exclude_dirs).1 +
                      (grand_totals files exclude_dirs).2)) = inr total_per ∧
    out = out' ++ [BlankLine; TotalLine (pyval total_per)] ∧
    ∃ deficit,
      py_sub (PInt (threshold ns)) total_per = inr deficit ∧
      v = if py_gt total_per (PInt (threshold ns)) then PInt 0 else deficit.
Proof.
  rewrite report_unfold.
  destruct (py_sorted _ _) as [e|s] eqn:Hs; [done|].
  apply py_sorted_perm in Hs.
  destruct (report_loop _ _ _ _ _ _) as [o1 [e|[ty tn]]] eqn:Hl; [done|].
  apply report_loop_ok in Hl as (_ & _ & Hv). cbn zeta in Hv.
  assert ((ty, tn) = grand_totals files exclude_dirs) as Ht.
  { rewrite Hv, !Z.add_0_l. unfold grand_totals.
    apply (sum_counts_perm files). apply filter_Permutation.
    by rewrite <-Permutation_rev. }
  rewrite <-Ht. cbn [fst snd].
  destruct (py_truediv _ _) as [e|p]; [done|].
  destruct (py_sub _ _) as [e|d] eqn:Hd; [done|].
  intros [= <- <-]. exists o1, p. split; [done|]. split; [done|]. by exists d.
Qed.

Example report_files_generated :
  report files_generated ["gen"] ns_default [] =
    ([FileLine 50 "src/a.c" 1 2; SymLine (Some "g");
      BlankLine; TotalLine 50], inr (PFloat 30)).
Proof. vm_compute. reflexivity. Qed.

(** [sub in s] holds exactly when [sub] occurs in [s]. *)
Lemma prefix_spec sub s :
  String.prefix sub s = true ↔ ∃ post, s = (sub ++ post)%string.
Proof.
  revert s. induction sub as [|a sub IH]; intros s; simpl.
  { split; [by exists s|]. by destruct s. }
  destruct s as [|b s]; simpl.
  { split; [done|]. by intros [post ?]. }
  destruct (Ascii.ascii_dec a b) as [->|Hne].
  - rewrite IH. split.
    + intros [post ->]. by exists post.
    + intros [post [= ->]]. by exists post.
  - split; [done|]. by intros [post [= ? _]].
Qed.

Lemma str_in_spec sub s :
  str_in sub s = true ↔ ∃ pre post, s = (pre ++ sub ++ post)%string.
Proof.
  split.
  - induction s as [|c s IH]; cbn [str_in]; rewrite orb_true_iff.
    + intros [[post Hp]%prefix_spec|]; [by exists "", post|done].
    + intros [[post Hp]%prefix_spec|H]; [by exists "", post|].
      destruct (IH H) as (pre & post & ->). by exists (String c pre), post.
  - intros (pre & post & ->). induction pre as [|c pre IH].
    + assert (String.prefix sub (sub ++ post) = true) as Hp
        by (apply prefix_spec; by exists post).
      change ("" ++ sub ++ post)%string with (sub ++ post)%string.
      destruct (sub ++ post)%string; cbn [str_in]; by rewrite Hp.
    + change (String c pre ++ sub ++ post)%string
        with (String c (pre ++ sub ++ post)).
      cbn [str_in]. by rewrite IH, orb_true_r.
Qed.

Lemma excluded_spec exclude_dirs f :
  excluded exclude_dirs f = true ↔
  ∃ e pre post, e ∈ exclude_dirs ∧ f = (pre ++ e ++ post)%string.
Proof.
  unfold excluded. rewrite existsb_exists. split.
  - intros (e & He%list_elem_of_In & (pre & post & ->)%str_in_spec).
    by exists e, pre, post.
  - intros (e & pre & post & He & ->). exists e.
    split; [by apply list_elem_of_In|]. apply str_in_spec. by exists pre, post.
Qed.

(** C7: a path in which one of the exclusion substrings occurs has no
    line in the report; it is not among the paths whose counts make the
    grand totals; and a report that completes is, lines, total and
    verdict, the report of the table without that path. *)
Theorem excluded_path_contributes_nothing files exclude_dirs ns f :
  (∃ e pre post, e ∈ exclude_dirs ∧ f = (pre ++ e ++ post)%string) →
  (∀ p y t, FileLine p f y t ∉ (report files exclude_dirs ns []).1) ∧
  (∀ out v, report files exclude_dirs ns [] = (out, inr v) →
     grand_totals files exclude_dirs =
       sum_counts files
         (filter (λ g, g ≠ f ∧ excluded exclude_dirs g = false) (keys files)) ∧
     ∃ out' total_per,
       py_truediv (PInt ((grand_totals files exclude_dirs).1 * 100))
                  (PInt ((grand_totals files exclude_dirs).1 +
                         (grand_totals files exclude_dirs).2))
         = inr total_per ∧
       out = out' ++ [BlankLine; TotalLine (pyval total_per)] ∧
       ∃ deficit,
         py_sub (PInt (threshold ns)) total_per = inr deficit ∧
         v = if py_gt total_per (PInt (threshold ns)) then PInt 0
             else deficit) ∧
  (∀ v, (report files exclude_dirs ns []).2 = inr v →
        report (od_remove files f) exclude_dirs ns []
          = report files exclude_dirs ns []).
Proof.
  intros Hex%excluded_spec. split; [|split].
  - intros p y t Hin%FileLine_printed.
    destruct (report_printed files exclude_dirs ns) as (l & Hl & Hpre & _).
    cbn zeta in Hl. rewrite Hl in Hin.
    apply list_elem_of_fmap in Hin as (g & [= <- _] & Hg).
    eapply elem_of_prefix in Hg; [|exact Hpre].
    apply list_elem_of_filter in Hg as [Hg _].
    unfold included in Hg. by rewrite Hex in Hg.
  - intros out v Hrep. split; [|by eapply report_grand_totals].
    unfold grand_totals. f_equal. apply list_filter_iff.
    intros g. split; [|tauto]. intros Hg. split; [|done]. congruence.
  - intros v Hv. by eapply report_remove.
Qed.

Lemma excluded_path_contributes_nothing_witness :
  (∀ p y t, FileLine p "gen/moc.c" y t
              ∉ (report files_generated ["gen"] ns_default []).1) ∧
  report (od_remove files_generated "gen/moc.c") ["gen"] ns_default []
    = report files_generated ["gen"] ns_default [].
Proof.
  destruct (excluded_path_contributes_nothing files_generated ["gen"]
              ns_default "gen/moc.c") as (Hline & _ & Hrem).
  { exists "gen", "", "/moc.c". split; [left|reflexivity]. }
  split; [exact Hline|].
  apply (Hrem (PFloat 30)). vm_compute. reflexivity.
Defined.

(** * Further properties of the code *)

(** ** The traversal of parse_file *)

Lemma iter_unfold e : iter e = e :: flat_map iter (children e).
Proof.
  by destruct e.
Qed.

Lemma depth_child e c : c ∈ children e → (depth c < depth e)%nat.
Proof.
  destruct e as [t a x cs]. cbn [children depth].
  induction cs as [|c' cs IH]; [by intros ?%elem_of_nil|].
  intros [->|Hc]%elem_of_cons.
  - lia.
  - specialize (IH Hc). lia.
Qed.

Lemma flat_map_iter_descends n e x :
  (depth e ≤ n)%nat → x ∈ flat_map iter (children e) → descends e x.
Proof.
  revert e x. induction n as [|n IH]; intros e x Hn Hx.
  { destruct e. simpl in Hn. lia. }
  apply list_elem_of_In, in_flat_map in Hx as (c & Hc%list_elem_of_In & Hx).
  rewrite iter_unfold in Hx. apply list_elem_of_In in Hx.
  apply elem_of_cons in Hx as [->|Hx].
  - by apply descends_child.
  - apply descends_step with c; [done|].
    apply IH; [|done]. pose proof (depth_child e c Hc). lia.
Qed.

Lemma descends_flat_map_iter e x :
  descends e x → x ∈ flat_map iter (children e).
Proof.
  induction 1 as [e c Hc|e c d Hc _ IH];
    apply list_elem_of_In, in_flat_map; exists c;
    (split; [by apply list_elem_of_In|]);
    rewrite iter_unfold; apply list_elem_of_In.
  - left.
  - by right.
Qed.

(** X1: the member definitions that [parse_file] visits are the
    elements tagged [memberdef] at any depth below a [compounddef]
    child of the root, and no others. *)
Theorem memberdefs_visited tree t u m :
  m ∈ findall_descendant tree t u ↔
  ∃ c, c ∈ children tree ∧ tag c = t ∧ descends c m ∧ tag m = u.
Proof.
  unfold findall_descendant, findall_child.
  rewrite list_elem_of_In, in_flat_map. split.
  - intros (c & [Ht Hc]%list_elem_of_In%list_elem_of_filter & Hm).
    apply list_elem_of_In, list_elem_of_filter in Hm as [Hu Hm].
    rewrite iter_unfold in Hm. cbn [tail] in Hm.
    exists c. repeat split; try done.
    by apply (flat_map_iter_descends (depth c)).
  - intros (c & Hc & Ht & Hd & Hu). exists c. split.
    + apply list_elem_of_In, list_elem_of_filter. done.
    + apply list_elem_of_In, list_elem_of_filter. split; [done|].
      rewrite iter_unfold. cbn [tail]. by apply descends_flat_map_iter.
Qed.

(** ** The record that parse_file returns *)

Lemma located_Some m s :
  located m = Some s ↔
  ∃ loc, find_child m "location" = Some loc ∧ get loc "file" = Some s ∧ s ≠ "".
Proof.
  unfold located. split.
  - destruct (find_child m "location") as [loc|]; [|done].
    destruct (get loc "file") as [s'|] eqn:Hg; [|done].
    case_bool_decide as Hs; [done|]. intros [= <-]. by exists loc.
  - intros (loc & -> & -> & Hne). by rewrite bool_decide_eq_false_2.
Qed.

Lemma located_None m :
  located m = None →
  py_not (match find_child m "location" with
          | Some loc => get loc "file"
          | None => None
          end) = true.
Proof.
  unfold located. destruct (find_child m "location") as [loc|]; [|done].
  destruct (get loc "file") as [s|]; [|done].
  simpl. by case_bool_decide.
Qed.

(** The path that the loop of [parse_file] settles on. *)
Lemma fold_parse_member_sourcefile ms sf d :
  let r := (fold_left parse_member ms (sf, d)).1 in
  if py_not sf then
    match first_file ms with
    | Some s => r = Some s
    | None => py_not r = true
    end
  else r = sf.
Proof.
  cbn zeta. revert sf d. induction ms as [|m ms IH]; intros sf d.
  { simpl. by destruct (py_not sf) eqn:E. }
  unfold first_file, considered in *. cbn [fold_left].
  destruct (skipped m) eqn:Hs.
  { rewrite parse_member_skipped by done.
    rewrite filter_cons_False by congruence. apply IH. }
  rewrite filter_cons_True by done. cbn [omap list_omap].
  assert (parse_member (sf, d) m =
    (if py_not sf then
       match find_child m "location" with
       | Some loc => get loc "file"
       | None => sf
       end
     else sf, <[member_name m:=is_documented m]> d)) as ->
    by (unfold parse_member; by rewrite Hs).
  destruct (py_not sf) eqn:Hsf.
  - destruct (located m) as [s|] eqn:Hl.
    + apply located_Some in Hl as (loc & -> & -> & Hne). cbn [head].
      specialize (IH (Some s) (<[member_name m:=is_documented m]> d)).
      cbn [py_not] in IH. by rewrite bool_decide_eq_false_2 in IH.
    + pose proof (located_None m Hl) as Hn.
      destruct (find_child m "location") as [loc|].
      * specialize (IH (get loc "file")
                      (<[member_name m:=is_documented m]> d)).
        by rewrite Hn in IH.
      * specialize (IH sf (<[member_name m:=is_documented m]> d)).
        by rewrite Hsf in IH.
  - specialize (IH sf (<[member_name m:=is_documented m]> d)).
    by rewrite Hsf in IH.
Qed.

(** X2: the path of a record is the [file] attribute of the first
    [location] child, non-empty, of the first considered member that
    has one (static functions do not count); without any, it is the
    path of the record's own file. *)
Theorem record_path fullpath tree :
  (parse_tree fullpath tree).1 =
    default fullpath
      (first_file (findall_descendant tree "compounddef" "memberdef")).
Proof.
  unfold parse_tree, parse_members.
  pose proof (fold_parse_member_sourcefile
    (findall_descendant tree "compounddef" "memberdef") None ∅) as H.
  cbn zeta in H. cbn [py_not] in H.
  destruct (fold_left parse_member _ _) as [r defs]. cbn [fst] in *.
  destruct (first_file _) as [s|] eqn:Hf.
  - subst r. cbn [default py_str].
    assert (s ≠ "") as Hne.
    { unfold first_file in Hf. apply head_Some_elem_of in Hf.
      apply list_elem_of_omap in Hf as (m & _ & Hm).
      by apply located_Some in Hm as (_ & _ & _ & ?). }
    simpl. by rewrite bool_decide_eq_false_2.
  - by rewrite H.
Qed.

(** X3: a record holds one symbol per distinct name among the
    considered members, flagged as the last member of that name is. *)
Theorem record_symbols fullpath tree :
  let ms := considered (findall_descendant tree "compounddef" "memberdef") in
  size (parse_tree fullpath tree).2 = length (remove_dups (member_name <$> ms)) ∧
  ∀ k, (parse_tree fullpath tree).2 !! k =
       is_documented <$> last (filter (λ m, member_name m = k) ms).
Proof.
  cbn zeta. rewrite parse_tree_definitions. split; [|apply parse_members_lookup].
  set (ms := findall_descendant tree "compounddef" "memberdef").
  rewrite <-(size_dom (parse_members ms).2).
  rewrite <-(size_list_to_set (C := gset (option string)))
    by apply NoDup_remove_dups.
  f_equal. apply set_eq. intros k.
  rewrite elem_of_dom, parse_members_lookup, fmap_is_Some.
  rewrite elem_of_list_to_set, elem_of_remove_dups, list_elem_of_fmap.
  split.
  - intros [m Hm]. apply last_Some_elem_of in Hm.
    apply list_elem_of_filter in Hm as [Hk Hm]. by exists m.
  - intros (m & -> & Hm). apply last_is_Some.
    intros Hnil. by eapply (filter_nil_not_elem_of _ _ m Hnil).
Qed.

(** X4: a member counts as documented exactly when one of its brief,
    detailed or in-body description children has a child element; the
    text of a description does not count. *)
Theorem documented_iff m :
  is_documented m = true ↔
  ∃ c g, c ∈ children m ∧ tag c ∈ description_tags ∧ g ∈ children c.
Proof.
  unfold is_documented. rewrite existsb_exists. split.
  - intros (k & Hk%list_elem_of_In & Hne).
    rewrite negb_true_iff, bool_decide_eq_false in Hne.
    unfold findall_child_star, findall_child in Hne.
    destruct (flat_map _ _) as [|g l] eqn:E; [done|].
    assert (In g (flat_map children (filter (λ c, tag c = k) (children m))))
      as Hg by (rewrite E; left; done).
    apply in_flat_map in Hg as (c & Hc%list_elem_of_In & Hg%list_elem_of_In).
    apply list_elem_of_filter in Hc as [<- Hc]. by exists c, g.
  - intros (c & g & Hc & Ht & Hg). exists (tag c).
    split; [by apply list_elem_of_In|].
    rewrite negb_true_iff, bool_decide_eq_false.
    unfold findall_child_star, findall_child. intros Hnil.
    assert (In g (flat_map children
      (filter (λ c', tag c' = tag c) (children m)))) as Hin.
    { apply in_flat_map. exists c. split; apply list_elem_of_In; [|done].
      by apply list_elem_of_filter. }
    by rewrite Hnil in Hin.
Qed.

(** ** The table that parse builds *)

Lemma od_get_set_eq {V} (d : odict V) k v : od_get (od_set d k v) k = Some v.
Proof.
  induction d as [|[k' v'] d IH]; simpl.
  - by rewrite bool_decide_eq_true_2.
  - case_bool_decide as E; simpl.
    + by rewrite bool_decide_eq_true_2.
    + by rewrite bool_decide_eq_false_2.
Qed.

Lemma od_get_set_ne {V} (d : odict V) k k' v :
  k' ≠ k → od_get (od_set d k v) k' = od_get d k'.
Proof.
  intros Hne. induction d as [|[k0 v0] d IH]; simpl.
  - by rewrite bool_decide_eq_false_2.
  - case_bool_decide as E; simpl.
    + subst k0. by rewrite !bool_decide_eq_false_2.
    + by case_bool_decide.
Qed.

Lemma od_get_Some_keys {V} (d : odict V) k v : od_get d k = Some v → k ∈ keys d.
Proof.
  intros H%od_get_elem_of. apply list_elem_of_fmap. by exists (k, v).
Qed.

Lemma keys_od_set {V} (d : odict V) k v :
  keys (od_set d k v) =
    if bool_decide (k ∈ keys d) then keys d else keys d ++ [k].
Proof.
  unfold keys. induction d as [|[k' v'] d IH]; [done|].
  cbn [od_set]. rewrite fmap_cons. cbn [fst].
  destruct (decide (k = k')) as [->|Hne].
  - rewrite (bool_decide_eq_true_2 (k' = k')) by done.
    rewrite (bool_decide_eq_true_2 (k' ∈ k' :: d.*1)) by left.
    by rewrite fmap_cons.
  - rewrite (bool_decide_eq_false_2 (k = k')) by done.
    rewrite fmap_cons, IH. cbn [fst].
    destruct (decide (k ∈ d.*1)) as [Hin|Hin].
    + rewrite (bool_decide_eq_true_2 (k ∈ d.*1)) by done.
      by rewrite (bool_decide_eq_true_2 (k ∈ k' :: d.*1)) by by right.
    + rewrite (bool_decide_eq_false_2 (k ∈ d.*1)) by done.
      rewrite (bool_decide_eq_false_2 (k ∈ k' :: d.*1)); [done|].
      by intros [->|?]%elem_of_cons.
Qed.

(** One turn of the loop of [parse] that does not raise adds the record
    of the compound, if it has one; the compound has a kind, and the
    file of a compound that is not a directory is there and well
    formed. *)
Lemma parse_entry_inr fs path files entry files' :
  parse_entry fs path files entry = inr files' →
  files' = from_option (add_record files) files (entry_record fs path entry) ∧
  ∃ kind, get entry "kind" = Some kind ∧
          (str_in kind "dir" = false →
           ∃ tree, fs !! entry_file path entry = Some (Document tree)).
Proof.
  unfold parse_entry, entry_record, parse_file, read_xml, add_record.
  fold (entry_file path entry).
  destruct (get entry "kind") as [kind|]; [|done].
  destruct (str_in kind "dir") eqn:Hdir.
  { intros [= <-]. split; [done|]. exists kind. split; [done|congruence]. }
  destruct (fs !! entry_file path entry) as [[|tree]|]; [done| |done].
  cbn [rbind ok]. cbn zeta.
  set (r := parse_tree (entry_file path entry) tree).
  intros H.
  assert (files' = (if bool_decide (r.2 = ∅) then files
                    else od_set files r.1 (default [] (od_get files r.1) ++ [r.2])))
    as ->.
  { case_bool_decide; [by injection H as <-|].
    unfold od_mem, od_item in H.
    destruct (od_get files r.1) as [l|] eqn:Hget.
    - rewrite bool_decide_eq_true_2 in H by eauto. by injection H as <-.
    - rewrite bool_decide_eq_false_2 in H by (by intros [??]).
      by injection H as <-. }
  split; [by case_bool_decide|]. exists kind. split; [done|]. by exists tree.
Qed.

Lemma parse_entries_inr fs path files entries files' :
  parse_entries fs path files entries = inr files' →
  files' = fold_left add_record (omap (entry_record fs path) entries) files ∧
  Forall (λ entry,
    ∃ kind, get entry "kind" = Some kind ∧
            (str_in kind "dir" = false →
             ∃ tree, fs !! entry_file path entry = Some (Document tree)))
    entries.
Proof.
  revert files. induction entries as [|entry rest IH]; intros files H.
  { injection H as <-. by split. }
  simpl in H. apply rbind_ok in H as (files1 & H1 & H).
  apply parse_entry_inr in H1 as (-> & Hentry).
  destruct (IH _ H) as (-> & Hrest).
  split; [|by constructor].
  cbn [omap list_omap]. by destruct (entry_record fs path entry).
Qed.

Lemma parse_inr fs ns path files :
  parse fs ns path = inr files →
  ∃ index, fs !! path_join path "index.xml" = Some (Document index) ∧
           parse_entries fs path [] (findall_child index "compound")
             = inr files.
Proof.
  unfold parse, FATAL, read_xml. destruct (negb _); [done|].
  destruct (fs !! path_join path "index.xml") as [[|index]|]; [done| |done].
  intros H. by exists index.
Qed.

(** The keys and the entries of a table to which records are added. *)
Lemma keys_add_records (recs : list (string * symmap)) (files : filetable) :
  keys (fold_left add_record recs files) = seen (keys files) recs.*1.
Proof.
  revert files. induction recs as [|r recs IH]; intros files; [done|].
  rewrite fmap_cons. cbn [fold_left]. unfold seen in *. cbn [fold_left].
  rewrite IH. unfold add_record. by rewrite keys_od_set.
Qed.

Lemma od_get_add_records (recs : list (string * symmap)) (files : filetable)
    (p : string) :
  default [] (od_get (fold_left add_record recs files) p) =
  default [] (od_get files p) ++ (filter (λ r, r.1 = p) recs).*2.
Proof.
  revert files. induction recs as [|r recs IH]; intros files.
  { simpl. by rewrite app_nil_r. }
  cbn [fold_left]. rewrite IH. unfold add_record.
  destruct (decide (r.1 = p)) as [<-|Hne].
  - rewrite od_get_set_eq, filter_cons_True by done.
    rewrite fmap_cons. unfold default. cbn [from_option id].
    by rewrite <-app_assoc.
  - rewrite od_get_set_ne by done. by rewrite filter_cons_False.
Qed.

Lemma seen_NoDup acc l : NoDup acc → NoDup (seen acc l).
Proof.
  revert acc. induction l as [|x l IH]; intros acc Hacc; [done|].
  unfold seen in *. cbn [fold_left]. apply IH.
  case_bool_decide as Hin; [done|].
  apply NoDup_app. repeat split; [done| |apply NoDup_singleton].
  intros y Hy ->%list_elem_of_singleton. done.
Qed.

(** X5: [parse] returns a table only if the index and the record of
    every compound that is not a directory are there and well formed,
    and every compound has a [kind]: one bad record and there is no
    table at all. *)
Theorem parse_needs_every_record fs ns path files :
  parse fs ns path = inr files →
  ∃ index,
    fs !! path_join path "index.xml" = Some (Document index) ∧
    Forall (λ entry,
      ∃ kind, get entry "kind" = Some kind ∧
              (str_in kind "dir" = false →
               ∃ tree, fs !! entry_file path entry = Some (Document tree)))
      (findall_child index "compound").
Proof.
  intros (index & Hindex & H)%parse_inr. exists index. split; [done|].
  by apply parse_entries_inr in H as [_ H].
Qed.

Lemma parse_needs_every_record_witness :
  ∃ index,
    fs_a !! path_join "xml" "index.xml" = Some (Document index) ∧
    Forall (λ entry,
      ∃ kind, get entry "kind" = Some kind ∧
              (str_in kind "dir" = false →
               ∃ tree, fs_a !! entry_file "xml" entry = Some (Document tree)))
      (findall_child index "compound").
Proof.
  apply (parse_needs_every_record fs_a ns_default "xml" table_a).
  vm_compute. reflexivity.
Defined.

(** X6: the table that [parse] returns groups the records by path.
    Its paths are the paths of the records that have symbols, each
    once, in the order in which the index first comes to them; and a
    path holds the symbol mappings of its records, in the order of the
    index. *)
Theorem parse_groups_records fs ns path files :
  parse fs ns path = inr files →
  ∃ index,
    fs !! path_join path "index.xml" = Some (Document index) ∧
    let recs := omap (entry_record fs path) (findall_child index "compound") in
    keys files = first_occurrences recs.*1 ∧
    NoDup (keys files) ∧
    ∀ p, default [] (od_get files p) = (filter (λ r, r.1 = p) recs).*2.
Proof.
  intros (index & Hindex & H)%parse_inr. exists index. split; [done|].
  apply parse_entries_inr in H as [-> _]. cbn zeta.
  split; [|split].
  - apply keys_add_records.
  - rewrite keys_add_records. apply seen_NoDup. constructor.
  - intros p. by rewrite od_get_add_records.
Qed.

Lemma parse_groups_records_witness :
  ∃ index,
    fs_a !! path_join "xml" "index.xml" = Some (Document index) ∧
    let recs := omap (entry_record fs_a "xml") (findall_child index "compound") in
    keys table_a = first_occurrences recs.*1 ∧
    NoDup (keys table_a) ∧
    ∀ p, default [] (od_get table_a p) = (filter (λ r, r.1 = p) recs).*2.
Proof.
  apply (parse_groups_records fs_a ns_default "xml" table_a).
  vm_compute. reflexivity.
Defined.

(** ** The lines of the report *)

(** A fraction of non-negative integers is printed as its integer
    quotient. *)
Lemma py_int_ratio (q : Q) (a b : Z) :
  0 ≤ a → 0 < b → (q == inject_Z a / inject_Z b)%Q → py_int q = a / b.
Proof.
  intros Ha Hb Hq. destruct q as [n d]. unfold py_int. cbn [Qnum Qden].
  destruct b as [|p|p]; try lia.
  unfold Qeq, Qdiv, Qinv, Qmult, inject_Z in Hq. cbn in Hq.
  assert (n * Z.pos p = a * Z.pos d) as E by lia.
  assert (0 ≤ n) as Hn by nia.
  rewrite Z.quot_div_nonneg by lia.
  rewrite <-(Z.div_mul_cancel_r n (Z.pos d) (Z.pos p)) by lia.
  rewrite E, (Z.mul_comm a), Z.div_mul_cancel_l by lia. done.
Qed.

Lemma ratio_bounds (q : Q) (a b : Z) :
  0 ≤ a ≤ b → 0 < b → (q == inject_Z (100 * a) / inject_Z b)%Q →
  (0 <= q <= 100)%Q.
Proof.
  intros Ha Hb Hq. rewrite Hq.
  assert (0 < inject_Z b)%Q as Hb' by (rewrite (Zlt_Qlt 0) in Hb; done).
  split.
  - apply Qle_shift_div_l; [done|]. rewrite Qmult_0_l.
    rewrite <-(Zle_Qle 0). lia.
  - apply Qle_shift_div_r; [done|].
    change 100%Q with (inject_Z 100). rewrite <-inject_Z_mult, <-Zle_Qle. lia.
Qed.

Lemma report_file_line files f p g y t :
  FileLine p g y t ∈ (report_file files f []).1 →
  g = f ∧
  ∃ defs, od_get files f = Some defs ∧
          y = doc_count true defs ∧
          t = doc_count true defs + doc_count false defs ∧
          0 < t ∧
          (p == inject_Z (100 * y) / inject_Z t)%Q.
Proof.
  rewrite report_file_unfold.
  destruct (od_get files f) as [[|d defs]|] eqn:Hget;
    [by intros ?%elem_of_nil| |by intros ?%elem_of_nil].
  cbn zeta.
  set (yes := doc_count true (d :: defs)).
  set (no := doc_count false (d :: defs)).
  pose proof (doc_count_nonneg true (d :: defs)) as Hy.
  pose proof (doc_count_nonneg false (d :: defs)) as Hn.
  fold yes in Hy. fold no in Hn.
  unfold py_truediv. cbn [pyval].
  destruct (Qeq_bool (inject_Z (yes + no)) 0) eqn:Hz;
    [by intros ?%elem_of_nil|].
  assert (yes + no ≠ 0) as Hne.
  { intros E. rewrite E in Hz. done. }
  cbn [pyval].
  assert (∀ out, FileLine p g y t ∈
            FileLine (Qred (pyval (py_mul (PInt yes) (PFloat 100)) /
                            inject_Z (yes + no))) f yes (yes + no) :: (SymLine <$> out) →
          g = f ∧ ∃ defs0, Some (d :: defs) = Some defs0 ∧
            y = doc_count true defs0 ∧
            t = doc_count true defs0 + doc_count false defs0 ∧ 0 < t ∧
            (p == inject_Z (100 * y) / inject_Z t)%Q) as Hgoal.
  { intros out [E|Hin]%elem_of_cons.
    - injection E as -> -> -> ->. split; [done|]. exists (d :: defs).
      repeat split; [lia|].
      rewrite Qred_correct. cbn [py_mul pyval]. rewrite Qred_correct.
      rewrite inject_Z_mult. change (inject_Z 100) with 100%Q.
      fold yes. by rewrite Qmult_comm.
    - apply list_elem_of_fmap in Hin as (? & ? & _). done. }
  destruct (py_sorted key_lt _) as [e|ds]; cbn [fst].
  - apply (Hgoal []).
  - apply Hgoal.
Qed.

Lemma report_loop_line files exclude_dirs fs ty tn l :
  l ∈ (report_loop files exclude_dirs fs ty tn []).1 →
  ∃ f, f ∈ fs ∧ excluded exclude_dirs f = false ∧
       l ∈ (report_file files f []).1.
Proof.
  revert ty tn. induction fs as [|f fs IH]; intros ty tn.
  { by intros ?%elem_of_nil. }
  rewrite report_loop_cons.
  destruct (excluded exclude_dirs f) eqn:Hex.
  { intros (g & Hg & H)%IH. exists g. split; [by right|done]. }
  destruct (report_file files f []) as [o1 [e|[y n]]] eqn:Hf; cbn [fst].
  - intros Hin. exists f. rewrite Hf. split; [by left|done].
  - intros [Hin|Hin]%elem_of_app.
    + exists f. rewrite Hf. split; [by left|done].
    + apply IH in Hin as (g & Hg & H). exists g. split; [by right|done].
Qed.

Lemma report_line files exclude_dirs ns l :
  l ∈ (report files exclude_dirs ns []).1 →
  l = BlankLine ∨ (∃ q, l = TotalLine q) ∨
  ∃ f, f ∈ keys files ∧ excluded exclude_dirs f = false ∧
       l ∈ (report_file files f []).1.
Proof.
  rewrite report_unfold.
  destruct (py_sorted _ _) as [e|s] eqn:Hs; [by intros ?%elem_of_nil|].
  apply py_sorted_perm in Hs.
  assert (l ∈ (report_loop files exclude_dirs (rev s) 0 0 []).1 →
            ∃ f, f ∈ keys files ∧ excluded exclude_dirs f = false ∧
                 l ∈ (report_file files f []).1) as Hloop.
  { intros (f & Hf & H)%report_loop_line. exists f. split; [|done].
    by rewrite <-Permutation_rev, Hs in Hf. }
  destruct (report_loop _ _ _ _ _ _) as [o1 [e|[ty tn]]] eqn:Hl; cbn [fst] in *.
  { intros Hin. right. right. by apply Hloop. }
  destruct (py_truediv _ _) as [e|tp]; cbn [fst].
  { intros Hin. right. right. by apply Hloop. }
  intros [Hin|Hin]%elem_of_app.
  - right. right. by apply Hloop.
  - apply elem_of_cons in Hin as [->|Hin]; [by left|].
    apply elem_of_cons in Hin as [->|Hin]; [right; left; by eexists|].
    by apply elem_of_nil in Hin.
Qed.

(** X7: every line of a file in the report belongs to a path of the
    table that is not excluded and has records; it shows the number of
    documented symbols and the number of all symbols of the records of
    the path, a name counting once for each record that holds it; the
    total is positive, and the percentage is their exact ratio, between
    0 and 100, printed as the integer quotient. *)
Theorem file_line_counts files exclude_dirs ns p f y t :
  FileLine p f y t ∈ (report files exclude_dirs ns []).1 →
  f ∈ keys files ∧ excluded exclude_dirs f = false ∧
  ∃ defs, od_get files f = Some defs ∧
    y = doc_count true defs ∧
    t = Z.of_nat (foldr (λ d acc, size d + acc)%nat 0%nat defs) ∧
    0 ≤ y ≤ t ∧ 0 < t ∧
    (p == inject_Z (100 * y) / inject_Z t)%Q ∧
    (0 <= p <= 100)%Q ∧
    py_int p = 100 * y / t.
Proof.
  intros [E|[[q E]|(g & Hg & Hex & Hin)]]%report_line; [done..|].
  apply report_file_line in Hin as (<- & defs & Hget & Hy & Ht & Hpos & Hp).
  split; [done|]. split; [done|]. exists defs.
  pose proof (doc_count_nonneg true defs).
  pose proof (doc_count_nonneg false defs).
  assert (0 ≤ y ≤ t) by lia.
  split; [done|]. split; [done|].
  split; [by rewrite Ht, doc_count_total|].
  split; [done|]. split; [done|]. split; [done|].
  split; [by apply (ratio_bounds p y t)|].
  apply py_int_ratio; [lia|done|done].
Qed.

Lemma file_line_counts_witness :
  "B.c" ∈ keys files_two_groups ∧ excluded [] "B.c" = false ∧
  ∃ defs, od_get files_two_groups "B.c" = Some defs ∧
    1 = doc_count true defs ∧
    4 = Z.of_nat (foldr (λ d acc, size d + acc)%nat 0%nat defs) ∧
    0 ≤ 1 ≤ 4 ∧ 0 < 4 ∧
    (25 == inject_Z (100 * 1) / inject_Z 4)%Q ∧
    (0 <= 25 <= 100)%Q ∧
    py_int 25 = 100 * 1 / 4.
Proof.
  apply (file_line_counts files_two_groups [] ns_default 25 "B.c" 1 4).
  apply list_elem_of_In. vm_compute. tauto.
Defined.

(** ** The summary *)

Lemma report_file_body files f l :
  l ∈ (report_file files f []).1 → body_line l = true.
Proof.
  rewrite report_file_unfold.
  destruct (od_get files f) as [[|d defs]|];
    [by intros ?%elem_of_nil| |by intros ?%elem_of_nil].
  cbn zeta. destruct (py_truediv _ _) as [e|p]; [by intros ?%elem_of_nil|].
  destruct (py_sorted key_lt _) as [e|ds]; cbn [fst].
  - intros [->|?%elem_of_nil]%elem_of_cons; done.
  - intros [->|(? & -> & _)%list_elem_of_fmap]%elem_of_cons; done.
Qed.

Lemma report_loop_body files exclude_dirs fs ty tn :
  Forall (λ l, body_line l = true) (report_loop files exclude_dirs fs ty tn []).1.
Proof.
  apply Forall_forall. intros l (f & _ & _ & Hin)%report_loop_line.
  by eapply report_file_body.
Qed.

Lemma py_truediv_float a b c : py_truediv a b = inr c → ∃ q, c = PFloat q.
Proof.
  unfold py_truediv. destruct (Qeq_bool _ _); [done|].
  intros [= <-]. by eexists.
Qed.

Lemma report_file_no_overflow files f :
  (report_file files f []).2 ≠ inl OverflowError.
Proof.
  rewrite report_file_unfold.
  destruct (od_get files f) as [[|d defs]|]; [done| |done].
  cbn zeta. destruct (py_truediv _ _) as [e|p] eqn:Hp.
  { by apply py_truediv_raises in Hp as ->. }
  destruct (py_sorted _ _) as [e|ds] eqn:Hs; [|done].
  by apply key_sort_raises in Hs as ->.
Qed.

Lemma report_loop_no_overflow files exclude_dirs fs ty tn :
  (report_loop files exclude_dirs fs ty tn []).2 ≠ inl OverflowError.
Proof.
  revert ty tn. induction fs as [|f fs IH]; intros ty tn; [done|].
  rewrite report_loop_cons. destruct (excluded exclude_dirs f); [apply IH|].
  pose proof (report_file_no_overflow files f) as Hf.
  destruct (report_file files f []) as [o1 [e|[y n]]]; [done|apply IH].
Qed.

(** X8: the blank line and the line of the total are printed, once
    and as the last two lines, when [report] returns, and also when the
    subtraction of its last statement raises [OverflowError] because no
    [float] holds the threshold; whatever was printed before any other
    exception is lines of files and of names. *)
Theorem summary_lines_last files exclude_dirs ns :
  match report files exclude_dirs ns [] with
  | (out, inl OverflowError) =>
      in_float_range (threshold ns) = false ∧
      ∃ body q, out = body ++ [BlankLine; TotalLine q] ∧
                Forall (λ l, body_line l = true) body
  | (out, inl _) => Forall (λ l, body_line l = true) out
  | (out, inr _) =>
      in_float_range (threshold ns) = true ∧
      ∃ body q, out = body ++ [BlankLine; TotalLine q] ∧
                Forall (λ l, body_line l = true) body
  end.
Proof.
  rewrite report_unfold.
  destruct (py_sorted _ _) as [e|s] eqn:Hs.
  { apply sorted_keys_raises in Hs as ->. by apply Forall_nil. }
  pose proof (report_loop_body files exclude_dirs (rev s) 0 0) as Hbody.
  pose proof (report_loop_no_overflow files exclude_dirs (rev s) 0 0) as Hno.
  destruct (report_loop _ _ _ _ _ _) as [o1 [e|[ty tn]]].
  { by destruct e. }
  destruct (py_truediv _ _) as [e|tp] eqn:Htp.
  { by apply py_truediv_raises in Htp as ->. }
  apply py_truediv_float in Htp as [q ->].
  rewrite py_sub_int_float.
  destruct (in_float_range (threshold ns)); (split; [done|]);
    by exists o1, q.
Qed.

(** A threshold that no [float] holds: the summary is printed, the
    subtraction raises, also where the coverage exceeds the threshold,
    and the status is 1 even with [--noerror].  The first such threshold
    is [2^1024 - 2^970]. *)
Example threshold_beyond_float :
  report files_two_groups [] ns_huge [] =
    ([FileLine 100 "A.c" 3 3; FileLine 25 "B.c" 1 4;
      SymLine (Some "b2"); SymLine (Some "b3"); SymLine (Some "b4");
      BlankLine; TotalLine (400 # 7)], inl OverflowError) ∧
  report files_two_groups []
    {| dir := "xml"; noerror := false; threshold := - 2 ^ 1024;
       excludedirs := [] |} [] =
    ([FileLine 100 "A.c" 3 3; FileLine 25 "B.c" 1 4;
      SymLine (Some "b2"); SymLine (Some "b3"); SymLine (Some "b4");
      BlankLine; TotalLine (400 # 7)], inl OverflowError) ∧
  (main fs_a ns_huge).2 = 1 ∧
  in_float_range (2 ^ 1024 - 2 ^ 970 - 1) = true ∧
  in_float_range (2 ^ 1024 - 2 ^ 970) = false.
Proof. repeat split; vm_compute; reflexivity. Qed.

Lemma sum_counts_nonneg files (l : list string) :
  0 ≤ (sum_counts files l).1 ∧ 0 ≤ (sum_counts files l).2.
Proof.
  unfold sum_counts. cbn [fst snd]. induction l as [|f l [IH1 IH2]]; [done|].
  cbn [foldr]. unfold counts at 1 3. cbn [fst snd].
  pose proof (doc_count_nonneg true (default [] (od_get files f))).
  pose proof (doc_count_nonneg false (default [] (od_get files f))).
  lia.
Qed.

Lemma Qlt_ratio (c a b : Z) :
  0 < b → (inject_Z c < inject_Z a / inject_Z b)%Q ↔ c * b < a.
Proof.
  intros Hb. destruct b as [|p|p]; try lia.
  unfold Qlt, Qdiv, Qinv, Qmult, inject_Z. cbn. lia.
Qed.

(** The last statement of [report] on [Y] documented symbols of [T]. *)
Lemma verdict_eq thr Y T :
  0 < T →
  match py_sub (PInt thr) (PFloat (Qred (inject_Z (Y * 100) / inject_Z T))) with
  | inl e => e = OverflowError ∧ in_float_range thr = false
  | inr d =>
      in_float_range thr = true ∧
      (if py_gt (PFloat (Qred (inject_Z (Y * 100) / inject_Z T))) (PInt thr)
       then PInt 0 else d) = verdict_of thr Y T
  end.
Proof.
  intros HT. rewrite py_sub_int_float.
  destruct (in_float_range thr); [|done]. split; [done|].
  unfold verdict_of, py_gt. cbn [pyval].
  case_bool_decide as Hlt.
  - assert (Qltb (inject_Z thr)
              (Qred (inject_Z (Y * 100) / inject_Z T)) = true) as ->; [|done].
    apply Qltb_lt. rewrite Qred_correct. apply Qlt_ratio; lia.
  - assert (Qltb (inject_Z thr)
              (Qred (inject_Z (Y * 100) / inject_Z T)) = false) as ->; [|done].
    apply Qltb_ge. apply Qnot_lt_le. rewrite Qred_correct.
    intros H. apply (Qlt_ratio thr (Y * 100) T) in H; lia.
Qed.

(** What [report] prints last and returns, in terms of the grand
    totals. *)
Lemma report_returns files exclude_dirs ns out v :
  report files exclude_dirs ns [] = (out, inr v) →
  let Y := (grand_totals files exclude_dirs).1 in
  let T := Y + (grand_totals files exclude_dirs).2 in
  0 ≤ Y ≤ T ∧ 0 < T ∧
  (∃ body, out = body ++
     [BlankLine; TotalLine (Qred (inject_Z (Y * 100) / inject_Z T))]) ∧
  v = verdict_of (threshold ns) Y T ∧
  in_float_range (threshold ns) = true.
Proof.
  intros (body & tp & Htp & -> & d & Hd & ->)%report_grand_totals. cbn zeta.
  assert (0 ≤ (grand_totals files exclude_dirs).1 ∧
          0 ≤ (grand_totals files exclude_dirs).2) as [HY HN]
    by apply sum_counts_nonneg.
  set (Y := (grand_totals files exclude_dirs).1) in *.
  set (N := (grand_totals files exclude_dirs).2) in *.
  assert (Y + N ≠ 0) as Hne.
  { intros E. rewrite E in Htp. done. }
  rewrite py_truediv_int in Htp by done. injection Htp as <-.
  split; [lia|]. split; [lia|]. split; [by exists body|].
  pose proof (verdict_eq (threshold ns) Y (Y + N)) as Hv.
  cbn [pyval] in Hd. rewrite Hd in Hv. destruct Hv as [Hfit Hv]; [lia|].
  by rewrite Hv.
Qed.

(** X9: when [report] returns, its last line shows the exact ratio of
    the documented symbols to all symbols of the paths that are not
    excluded, a number between 0 and 100 printed as the integer quotient
    (rounded down, never up); there is at least one such symbol. *)
Theorem total_line_ratio files exclude_dirs ns out v :
  report files exclude_dirs ns [] = (out, inr v) →
  let Y := (grand_totals files exclude_dirs).1 in
  let T := Y + (grand_totals files exclude_dirs).2 in
  0 ≤ Y ≤ T ∧ 0 < T ∧
  ∃ q, last out = Some (TotalLine q) ∧
       (q == inject_Z (100 * Y) / inject_Z T)%Q ∧
       (0 <= q <= 100)%Q ∧
       render (TotalLine q) =
         (pretty (100 * Y / T) ++ "% API documentation coverage")%string.
Proof.
  intros (HY & HT & [body ->] & _)%report_returns. cbn zeta.
  set (Y := (grand_totals files exclude_dirs).1) in *.
  set (T := Y + (grand_totals files exclude_dirs).2) in *.
  split; [done|]. split; [done|].
  assert (Qred (inject_Z (Y * 100) / inject_Z T) ==
          inject_Z (100 * Y) / inject_Z T)%Q as Hq.
  { by rewrite Qred_correct, (Z.mul_comm Y). }
  eexists. split.
  { change (body ++ [BlankLine; ?x]) with (body ++ [BlankLine] ++ [x]).
    by rewrite (assoc_L (++)), last_snoc. }
  split; [done|]. split; [by apply (ratio_bounds _ Y T)|].
  cbn [render]. by rewrite (py_int_ratio _ (100 * Y) T) by (done || lia).
Qed.

Lemma total_line_ratio_witness :
  0 ≤ 4 ≤ 7 ∧ 0 < 7 ∧
  ∃ q, last [FileLine 100 "A.c" 3 3; FileLine 25 "B.c" 1 4;
             SymLine (Some "b2"); SymLine (Some "b3"); SymLine (Some "b4");
             BlankLine; TotalLine (400 # 7)] = Some (TotalLine q) ∧
       (q == inject_Z (100 * 4) / inject_Z 7)%Q ∧
       (0 <= q <= 100)%Q ∧
       render (TotalLine q) =
         (pretty (100 * 4 / 7) ++ "% API documentation coverage")%string.
Proof.
  apply (total_line_ratio files_two_groups [] ns_default _
           (PFloat (160 # 7))).
  vm_compute. reflexivity.
Defined.

(** X10: the verdict compares integers: [report] returns the [int] 0
    exactly when 100 times the documented symbols exceed the threshold
    times all symbols; otherwise, also when the coverage equals the
    threshold, it returns a [float], the threshold minus the coverage,
    which is not negative. *)
Theorem verdict_strict files exclude_dirs ns out v :
  report files exclude_dirs ns [] = (out, inr v) →
  let Y := (grand_totals files exclude_dirs).1 in
  let T := Y + (grand_totals files exclude_dirs).2 in
  (threshold ns * T < 100 * Y → v = PInt 0) ∧
  (100 * Y ≤ threshold ns * T →
   ∃ d, v = PFloat d ∧ (0 <= d)%Q ∧
        (d == inject_Z (threshold ns) - inject_Z (100 * Y) / inject_Z T)%Q).
Proof.
  intros (HY & HT & _ & -> & _)%report_returns. cbn zeta.
  set (Y := (grand_totals files exclude_dirs).1) in *.
  set (T := Y + (grand_totals files exclude_dirs).2) in *.
  unfold verdict_of. split; intros Hc.
  - by rewrite bool_decide_eq_true_2.
  - rewrite bool_decide_eq_false_2 by lia. eexists. split; [done|].
    assert (Qred (inject_Z (threshold ns) -
                  Qred (inject_Z (Y * 100) / inject_Z T)) ==
            inject_Z (threshold ns) - inject_Z (100 * Y) / inject_Z T)%Q as Hd.
    { by rewrite !Qred_correct, (Z.mul_comm Y). }
    split; [|done]. rewrite Hd.
    apply (Qplus_le_r _ _ (inject_Z (100 * Y) / inject_Z T)).
    ring_simplify. apply Qnot_lt_le.
    intros H. apply (Qlt_ratio (threshold ns) (100 * Y) T) in H; lia.
Qed.

Lemma verdict_strict_witness :
  ∃ d, PFloat (160 # 7) = PFloat d ∧ (0 <= d)%Q ∧
       (d == inject_Z (threshold ns_default) -
             inject_Z (100 * (grand_totals files_two_groups []).1) /
             inject_Z ((grand_totals files_two_groups []).1 +
                       (grand_totals files_two_groups []).2))%Q.
Proof.
  refine (proj2 (verdict_strict files_two_groups [] ns_default
            [FileLine 100 "A.c" 3 3; FileLine 25 "B.c" 1 4;
             SymLine (Some "b2"); SymLine (Some "b3"); SymLine (Some "b4");
             BlankLine; TotalLine (400 # 7)]
            (PFloat (160 # 7)) _) _).
  - vm_compute. reflexivity.
  - vm_compute. discriminate.
Defined.

(** ** The exit status *)

Lemma verdict_status thr Y T :
  sys_exit (verdict_of thr Y T) = if bool_decide (thr * T < 100 * Y) then 0 else 1.
Proof. unfold verdict_of. by case_bool_decide. Qed.

(** X11: the process ends with status 0 or 1 and no other, although
    [report] returns the missing percentage.  It is 0 in two cases only:
    the index is missing and [--noerror] is given; or [parse] and
    [report] return and [--noerror] is given or the verdict is the
    [int] 0. *)
Theorem main_status fs ns :
  ((main fs ns).2 = 0 ∨ (main fs ns).2 = 1) ∧
  ((main fs ns).2 = 0 ↔
   (path_exists fs (path_join (dir ns) "index.xml") = false ∧
    noerror ns = true) ∨
   ∃ files out v,
     parse fs ns (dir ns) = inr files ∧
     report files (excludedirs ns) ns [] = (out, inr v) ∧
     (noerror ns = true ∨ v = PInt 0)).
Proof.
  unfold main.
  destruct (parse fs ns (dir ns)) as [e|files] eqn:Hp.
  { cbn [snd]. destruct (parse_raises _ _ _ _ Hp) as [->|He].
    - apply parse_fatal in Hp as [Hex _].
      destruct (noerror ns) eqn:Hno; cbn [exit_status].
      + split; [by left|]. split; [by left|done].
      + split; [by right|]. split; [done|].
        intros [[_ ?]|(? & ? & ? & ? & _)]; done.
    - rewrite (escapes_status e He). split; [by right|]. split; [done|].
      intros [[Hex Hno]|(? & ? & ? & ? & _)]; [|done].
      unfold parse in Hp. rewrite Hex in Hp. cbn [negb] in Hp.
      injection Hp as <-. by destruct (He (if noerror ns then 0 else 1)). }
  assert (∀ P, (path_exists fs (path_join (dir ns) "index.xml") = false ∧ P)
               → False) as Hidx.
  { intros P [Hex _]. unfold parse, FATAL in Hp. by rewrite Hex in Hp. }
  destruct (report files (excludedirs ns) ns []) as [out [e|v]] eqn:Hr.
  { cbn [snd]. rewrite (escapes_status e).
    2:{ apply (report_raises files (excludedirs ns) ns). by rewrite Hr. }
    split; [by right|]. split; [done|].
    intros [H|(? & ? & ? & [= <-] & Hr' & _)]; [by apply Hidx in H|].
    rewrite Hr in Hr'. done. }
  cbn [snd]. pose proof Hr as (_ & _ & _ & Hv & _)%report_returns.
  destruct (noerror ns) eqn:Hno.
  { split; [by left|]. split; [|done]. intros _. right.
    exists files, out, v. by repeat split; [|left]. }
  rewrite Hv, verdict_status. case_bool_decide as Hlt.
  - assert (v = PInt 0) as Hv0.
    { rewrite Hv. unfold verdict_of. by rewrite bool_decide_eq_true_2. }
    split; [by left|]. split; [|done]. intros _. right.
    exists files, out, v. by repeat split; [|right].
  - split; [by right|]. split; [done|].
    intros [H|(? & ? & v' & [= <-] & Hr' & [?|Hv'])];
      [by apply Hidx in H|done|].
    rewrite Hr in Hr'. injection Hr' as _ <-.
    rewrite Hv in Hv'. unfold verdict_of in Hv'.
    by rewrite bool_decide_eq_false_2 in Hv'.
Qed.

(** X12: with a threshold of 100 or more and without [--noerror] the
    status is 1 whatever the documentation: the coverage never exceeds
    100, and reaching the threshold is not enough. *)
Theorem threshold_100_never_passes fs ns :
  100 ≤ threshold ns → noerror ns = false → (main fs ns).2 = 1.
Proof.
  intros Hthr Hno. unfold main.
  destruct (parse fs ns (dir ns)) as [e|files] eqn:Hp.
  { cbn [snd]. destruct (parse_raises _ _ _ _ Hp) as [->|He].
    - by rewrite Hno.
    - by apply escapes_status. }
  destruct (report files (excludedirs ns) ns []) as [out [e|v]] eqn:Hr.
  { cbn [snd]. apply escapes_status.
    apply (report_raises files (excludedirs ns) ns). by rewrite Hr. }
  cbn [snd]. rewrite Hno.
  apply report_returns in Hr as (HY & HT & _ & -> & _).
  rewrite verdict_status, bool_decide_eq_false_2; [done|]. nia.
Qed.

Lemma threshold_100_never_passes_witness : (main fs_doc ns_100).2 = 1.
Proof.
  apply (threshold_100_never_passes fs_doc ns_100); [vm_compute; discriminate|reflexivity].
Defined.

(** ** Paths of equal coverage *)

Lemma filter_fmap_pair {A B} (g : A → B) (P : B → Prop)
    `{∀ x, Decision (P x)} (l : list A) :
  filter P (g <$> l) = g <$> filter (λ a, P (g a)) l.
Proof.
  induction l as [|a l IH]; [done|]. rewrite fmap_cons.
  destruct (decide (P (g a))).
  - rewrite !filter_cons_True by done. by rewrite fmap_cons, IH.
  - by rewrite !filter_cons_False.
Qed.

Lemma isort_ties {A} (ltb : A → A → bool) (l : list A) :
  (∀ x y, x ∈ l → y ∈ l → ltb x y = false) → isort ltb l = l.
Proof.
  induction l as [|x l IH]; intros Hties; [done|].
  cbn [isort]. rewrite IH.
  2:{ intros a b Ha Hb. apply Hties; by right. }
  destruct l as [|y l]; [done|]. cbn [insert_by].
  rewrite Hties; [done|by right; left|by left].
Qed.

(** X13: the paths of one and the same coverage are listed in the
    reverse of the order in which the table holds them, which is the
    order in which [parse] met them. *)
Theorem ties_in_reverse_table_order files exclude_dirs ns out v q :
  report files exclude_dirs ns [] = (out, inr v) →
  (filter (λ a, Qeq_bool a.2 q = true) (printed_files out)).*1 =
  rev (filter (λ f, included files exclude_dirs f = true ∧
                    Qeq_bool (coverage files f) q = true) (keys files)).
Proof.
  intros Hr.
  destruct (report_printed files exclude_dirs ns) as (l & Hl & _ & _ & Hall).
  rewrite Hr in Hl, Hall. cbn [fst snd] in Hl, Hall.
  rewrite Hl, (Hall v eq_refl), filter_fmap_pair, fmap_fst_pair.
  cbn [snd]. rewrite list_filter_filter, filter_rev. f_equal.
  rewrite (list_filter_iff _
    (λ f, included files exclude_dirs f = true ∧
          Qeq_bool (coverage files f) q = true)) by (intros f; tauto).
  rewrite (filter_isort _ (key_le (coverage files))); unfold key_ltb, key_le.
  - apply isort_ties. intros x y [[_ Hx] _]%list_elem_of_filter
      [[_ Hy] _]%list_elem_of_filter.
    apply Qltb_ge. apply Qeq_bool_eq in Hx, Hy. rewrite Hx, Hy. apply Qle_refl.
  - intros x y ?%Qltb_lt. by apply Qlt_le_weak.
  - by intros x y ?%Qltb_ge.
  - intros x y z. apply Qle_trans.
  - intros x y Hlt%Qltb_lt Hle. by apply Qlt_not_le in Hlt.
Qed.

Lemma ties_in_reverse_table_order_witness :
  (filter (λ a, Qeq_bool a.2 50 = true)
     (printed_files
        [FileLine 100 "full.c" 1 1; FileLine 50 "second.c" 1 2;
         SymLine (Some "e"); FileLine 50 "first.c" 1 2;
         SymLine (Some "b"); BlankLine; TotalLine 60])).*1 =
  rev (filter (λ f, included files_tied [] f = true ∧
                    Qeq_bool (coverage files_tied f) 50 = true)
         (keys files_tied)).
Proof.
  apply (ties_in_reverse_table_order files_tied [] ns_default _ (PFloat 20)).
  vm_compute. reflexivity.
Defined.

(** ** When [report] returns *)

Lemma sortable_sorted l :
  sortable l = true ↔ ∃ r, py_sorted key_lt l = inr r.
Proof.
  unfold sortable. split.
  - intros [Hlen|Hall]%orb_true_iff.
    + apply Nat.ltb_lt in Hlen.
      destruct l as [|x [|y l]]; [by eexists|by eexists|simpl in Hlen; lia].
    + apply (py_sorted_total key_lt is_Some).
      * intros a b [x ->] [y ->]. by eexists.
      * apply Forall_forall. intros x Hx.
        rewrite forallb_forall in Hall. apply list_elem_of_In, Hall in Hx.
        by apply bool_decide_eq_true in Hx.
  - intros [r [->|[l0 ->]]%py_sorted_names]; [done|].
    apply orb_true_iff. right. apply forallb_forall.
    intros x (y & -> & _)%list_elem_of_In%list_elem_of_fmap.
    by apply bool_decide_eq_true.
Qed.

Lemma report_file_outcome files f :
  table_ok files → f ∈ keys files →
  (report_file files f []).2 =
    if sortable (undocumented files f) then inr (counts files f)
    else inl TypeError.
Proof.
  intros Hok Hf.
  destruct (table_ok_coverage files f Hok Hf) as (defs & Hitem & Hne & Hpos & _).
  unfold od_item in Hitem.
  destruct (od_get files f) as [defs'|] eqn:Hget; [|done].
  injection Hitem as ->.
  rewrite report_file_unfold, Hget. unfold undocumented, counts. rewrite Hget.
  unfold default. cbn [from_option id].
  destruct defs as [|d defs]; [done|]. cbn zeta.
  rewrite py_truediv_int by lia.
  destruct (py_sorted key_lt _) as [e|ds] eqn:Hs; cbn [snd].
  - destruct (sortable _) eqn:Hb.
    + apply sortable_sorted in Hb as [r Hr]. congruence.
    + by apply key_sort_raises in Hs as ->.
  - rewrite (proj2 (sortable_sorted _)); [done|by eexists].
Qed.

Lemma report_loop_outcome files exclude_dirs fs ty tn :
  table_ok files → fs ⊆ keys files →
  let l := filter (λ f, excluded exclude_dirs f = false) fs in
  (report_loop files exclude_dirs fs ty tn []).2 =
    if forallb (λ f, sortable (undocumented files f)) l
    then inr (ty + (sum_counts files l).1, tn + (sum_counts files l).2)
    else inl TypeError.
Proof.
  intros Hok. cbn zeta. revert ty tn.
  induction fs as [|f fs IH]; intros ty tn Hsub.
  { simpl. by rewrite !Z.add_0_r. }
  rewrite report_loop_cons.
  destruct (excluded exclude_dirs f) eqn:Hex.
  { rewrite filter_cons_False by congruence. apply IH. set_solver. }
  rewrite filter_cons_True by done. cbn [forallb].
  pose proof (report_file_outcome files f Hok) as Hf.
  destruct (report_file files f []) as [o1 r1]. cbn [snd] in Hf.
  rewrite Hf by set_solver.
  destruct (sortable (undocumented files f)); [|done].
  destruct (counts files f) as [y n] eqn:Hc. cbn [snd andb].
  rewrite IH by set_solver.
  destruct (forallb _ _); [|done].
  unfold sum_counts. cbn [foldr fst snd]. rewrite Hc. cbn [fst snd].
  do 2 f_equal; lia.
Qed.

Lemma forallb_perm {A} (g : A → bool) (l1 l2 : list A) :
  l1 ≡ₚ l2 → forallb g l1 = forallb g l2.
Proof.
  induction 1 as [|x l1 l2 _ IH|x y l|l1 l2 l3 _ IH1 _ IH2]; cbn [forallb].
  - done.
  - by rewrite IH.
  - by destruct (g x), (g y).
  - by rewrite IH1.
Qed.

Lemma sum_counts_pos files (l : list string) :
  table_ok files → l ⊆ keys files → l ≠ [] →
  0 < (sum_counts files l).1 + (sum_counts files l).2.
Proof.
  intros Hok Hsub Hne. destruct l as [|f l]; [done|].
  destruct (sum_counts_nonneg files l) as [H1 H2].
  destruct (table_ok_coverage files f Hok) as (defs & Hitem & _ & Hpos & _);
    [set_solver|].
  unfold od_item in Hitem.
  destruct (od_get files f) as [defs'|] eqn:Hget; [|done].
  injection Hitem as ->.
  unfold sum_counts in *. cbn [foldr fst snd] in *.
  unfold counts at 1 3. rewrite Hget. cbn [default from_option id fst snd].
  unfold default. cbn [from_option id]. lia.
Qed.

(** What [report] returns or raises for a table as [parse] builds them:
    the sorting and the order of the loop do not matter. *)
Lemma report_outcome_eq files exclude_dirs ns :
  table_ok files →
  (report files exclude_dirs ns []).2 =
  report_outcome files exclude_dirs (threshold ns).
Proof.
  intros Hok. rewrite report_unfold.
  destruct (sorted_keys_total files Hok) as [s Hs]. rewrite Hs.
  apply py_sorted_perm in Hs.
  assert (rev s ⊆ keys files) as Hsub.
  { intros x Hx. by rewrite <-Permutation_rev, Hs in Hx. }
  assert (filter (λ f, excluded exclude_dirs f = false) (rev s) ≡ₚ
          listed files exclude_dirs) as Hperm.
  { unfold listed. by rewrite <-Permutation_rev, Hs. }
  pose proof (report_loop_outcome files exclude_dirs (rev s) 0 0 Hok Hsub) as Hl.
  cbn zeta in Hl.
  rewrite (forallb_perm _ _ _ Hperm), (sum_counts_perm _ _ _ Hperm) in Hl.
  change (sum_counts files (listed files exclude_dirs))
    with (grand_totals files exclude_dirs) in Hl.
  unfold report_outcome.
  destruct (report_loop _ _ _ _ _ _) as [o1 r1]. cbn [snd] in Hl. subst r1.
  destruct (forallb _ (listed files exclude_dirs)); cbn [negb]; [|done].
  rewrite !Z.add_0_l.
  case_bool_decide as Hnil.
  - unfold grand_totals. fold (listed files exclude_dirs). by rewrite Hnil.
  - assert (0 < (grand_totals files exclude_dirs).1 +
                (grand_totals files exclude_dirs).2) as Hpos.
    { apply sum_counts_pos; [done| |done].
      intros x [_ Hx]%list_elem_of_filter. done. }
    rewrite py_truediv_int by lia. cbn [snd pyval].
    pose proof (verdict_eq (threshold ns) (grand_totals files exclude_dirs).1
                  ((grand_totals files exclude_dirs).1 +
                   (grand_totals files exclude_dirs).2) Hpos) as Hv.
    destruct (py_sub _ _) as [e|d].
    + destruct Hv as [-> ->]. done.
    + destruct Hv as [-> ->]. done.
Qed.

Lemma forallb_false_Exists {A} (g : A → bool) (l : list A) :
  forallb g l = false → Exists (λ x, g x = false) l.
Proof.
  induction l as [|x l IH]; [done|]. cbn [forallb].
  destruct (g x) eqn:E; [|by left]. intros H. right. by apply IH.
Qed.

(** X14: on a table as [parse] builds them, [report] returns exactly
    when the undocumented names of every path that is not excluded can
    be sorted (fewer than two of them, or none of them [None]), there is
    such a path, and the threshold converts to a [float].  Otherwise it
    raises [TypeError] for a path whose names cannot be sorted, else
    [ZeroDivisionError] when every path is excluded, else
    [OverflowError] for a threshold that no [float] holds. *)
Theorem report_returns_iff files exclude_dirs ns :
  table_ok files →
  match (report files exclude_dirs ns []).2 with
  | inr _ =>
      Forall (λ f, sortable (undocumented files f) = true)
             (listed files exclude_dirs) ∧
      listed files exclude_dirs ≠ [] ∧
      in_float_range (threshold ns) = true
  | inl e =>
      e = TypeError ∧
      Exists (λ f, sortable (undocumented files f) = false)
             (listed files exclude_dirs)
      ∨ e = ZeroDivisionError ∧ listed files exclude_dirs = []
      ∨ e = OverflowError ∧
        Forall (λ f, sortable (undocumented files f) = true)
               (listed files exclude_dirs) ∧
        listed files exclude_dirs ≠ [] ∧
        in_float_range (threshold ns) = false
  end.
Proof.
  intros Hok. rewrite (report_outcome_eq files exclude_dirs ns Hok).
  unfold report_outcome.
  destruct (forallb _ _) eqn:Hall; cbn [negb].
  - assert (Forall (λ f, sortable (undocumented files f) = true)
              (listed files exclude_dirs)) as HF.
    { apply Forall_forall. intros f Hf. rewrite forallb_forall in Hall.
      by apply Hall, list_elem_of_In. }
    case_bool_decide as Hnil; [right; by left|].
    destruct (in_float_range (threshold ns)); cbn [negb]; [done|].
    right. right. done.
  - left. split; [done|]. by apply forallb_false_Exists.
Qed.

Lemma report_returns_iff_witness :
  match (report table_a [] ns_default []).2 with
  | inr _ =>
      Forall (λ f, sortable (undocumented table_a f) = true) (listed table_a []) ∧
      listed table_a [] ≠ [] ∧
      in_float_range (threshold ns_default) = true
  | inl e =>
      e = TypeError ∧
      Exists (λ f, sortable (undocumented table_a f) = false) (listed table_a [])
      ∨ e = ZeroDivisionError ∧ listed table_a [] = []
      ∨ e = OverflowError ∧
        Forall (λ f, sortable (undocumented table_a f) = true) (listed table_a []) ∧
        listed table_a [] ≠ [] ∧
        in_float_range (threshold ns_default) = false
  end.
Proof.
  apply (report_returns_iff table_a [] ns_default).
  unfold table_ok, records_ok. apply (bool_decide_unpack _). vm_compute. exact I.
Defined.

(** ** The order of the table *)

Lemma od_get_NoDup {V} (d : odict V) k v :
  NoDup (keys d) → (k, v) ∈ d → od_get d k = Some v.
Proof.
  unfold keys. induction d as [|[k' v'] d IH]; [by intros _ ?%elem_of_nil|].
  rewrite fmap_cons. cbn [fst]. intros [Hk Hd]%NoDup_cons.
  intros [[= -> ->]|Hin]%elem_of_cons; cbn [od_get].
  - by rewrite bool_decide_eq_true_2.
  - rewrite bool_decide_eq_false_2; [by apply IH|].
    intros ->. apply Hk. apply list_elem_of_fmap. by exists (k', v).
Qed.

Lemma od_get_perm {V} (d d' : odict V) k :
  NoDup (keys d) → d ≡ₚ d' → od_get d k = od_get d' k.
Proof.
  intros Hnd Hp.
  assert (NoDup (keys d')) as Hnd' by (unfold keys in *; by rewrite <-Hp).
  apply option_eq. intros v. split; intros H%od_get_elem_of.
  - apply od_get_NoDup; [done|]. by rewrite <-Hp.
  - apply od_get_NoDup; [done|]. by rewrite Hp.
Qed.

Lemma forallb_ext_in {A} (g h : A → bool) (l : list A) :
  (∀ x, g x = h x) → forallb g l = forallb h l.
Proof. intros E. induction l as [|x l IH]; [done|]. simpl. by rewrite E, IH. Qed.

(** X15: what [report] returns or raises does not depend on the order
    in which the table holds the paths, that is on the order of the
    compounds in the index: only the order of the listing does. *)
Theorem outcome_independent_of_order files files' exclude_dirs ns :
  table_ok files → NoDup (keys files) → files ≡ₚ files' →
  (report files exclude_dirs ns []).2 = (report files' exclude_dirs ns []).2.
Proof.
  intros Hok Hnd Hp.
  assert (table_ok files') as Hok' by (unfold table_ok in *; by rewrite <-Hp).
  rewrite !report_outcome_eq by done. unfold report_outcome.
  assert (listed files exclude_dirs ≡ₚ listed files' exclude_dirs) as Hl.
  { unfold listed, keys. by rewrite Hp. }
  assert (∀ f, od_get files f = od_get files' f) as Hget.
  { intros f. by apply od_get_perm. }
  rewrite (forallb_perm _ _ _ Hl).
  rewrite (forallb_ext_in _ (λ f, sortable (undocumented files' f))).
  2:{ intros f. unfold undocumented. by rewrite Hget. }
  destruct (forallb _ _); cbn [negb]; [|done].
  assert (grand_totals files exclude_dirs = grand_totals files' exclude_dirs) as ->.
  { unfold grand_totals. fold (listed files exclude_dirs).
    fold (listed files' exclude_dirs). rewrite (sum_counts_perm _ _ _ Hl).
    unfold sum_counts. f_equal; apply foldr_ext; try done;
      intros f acc; unfold counts; by rewrite Hget. }
  case_bool_decide as H1; case_bool_decide as H2; try done.
  - rewrite H1 in Hl. apply Permutation_nil_l in Hl. congruence.
  - rewrite H2 in Hl. by apply Permutation_nil_r in Hl.
Qed.

Lemma outcome_independent_of_order_witness :
  (report files_two_groups [] ns_default []).2 =
  (report [ ("B.c", [record_of ["b1"] ["b2"; "b3"; "b4"]]);
            ("A.c", [record_of ["a1"; "a2"; "a3"] []]) ] [] ns_default []).2.
Proof.
  apply (outcome_independent_of_order files_two_groups).
  - unfold table_ok, records_ok. apply (bool_decide_unpack _). vm_compute. exact I.
  - apply (bool_decide_unpack _). vm_compute. exact I.
  - apply perm_swap.
Defined.

(** ** Exclusion by the empty string *)

Lemma str_in_empty s : str_in "" s = true.
Proof. by destruct s. Qed.

Lemma report_loop_all_excluded files exclude_dirs fs ty tn :
  Forall (λ f, excluded exclude_dirs f = true) fs →
  report_loop files exclude_dirs fs ty tn [] = ([], inr (ty, tn)).
Proof.
  induction 1 as [|f fs Hf _ IH]; [done|].
  by rewrite report_loop_cons, Hf.
Qed.

(** X16: the empty string is part of every path, so an empty string
    among the excluded directories excludes all of them: [report] prints
    nothing and raises [ZeroDivisionError], whatever the table. *)
Theorem empty_exclusion_excludes_all files exclude_dirs ns :
  "" ∈ exclude_dirs →
  (∀ f, excluded exclude_dirs f = true) ∧
  report files exclude_dirs ns [] = ([], inl ZeroDivisionError).
Proof.
  intros Hin.
  assert (∀ f, excluded exclude_dirs f = true) as Hex.
  { intros f. unfold excluded. apply existsb_exists. exists "".
    split; [by apply list_elem_of_In|apply str_in_empty]. }
  split; [done|]. rewrite report_unfold.
  destruct (py_sorted _ _) as [e|s] eqn:Hs.
  { by apply sorted_keys_raises in Hs as ->. }
  rewrite report_loop_all_excluded; [done|].
  apply Forall_forall. intros f _. apply Hex.
Qed.

Lemma empty_exclusion_excludes_all_witness :
  (∀ f, excluded ["gen"; ""] f = true) ∧
  report files_generated ["gen"; ""] ns_default [] = ([], inl ZeroDivisionError).
Proof.
  apply (empty_exclusion_excludes_all files_generated ["gen"; ""] ns_default).
  apply list_elem_of_In. vm_compute. tauto.
Defined.

(** ** Compounds passed over as directories *)

Lemma str_in_dir kind : str_in kind "dir" = true ↔ kind ∈ dir_kinds.
Proof.
  split.
  - intros (pre & post & H)%str_in_spec. unfold dir_kinds.
    destruct pre as [|? [|? [|? [|? ?]]]];
      destruct kind as [|? [|? [|? [|? ?]]]];
      cbv in H; simplify_eq; apply list_elem_of_In; simpl; tauto.
  - unfold dir_kinds. intros H.
    repeat (apply elem_of_cons in H as [->|H]; [done|]).
    by apply elem_of_nil in H.
Qed.

Lemma read_xml_empty p : read_xml ∅ p = inl FileNotFoundError.
Proof. unfold read_xml, filesystem. by rewrite lookup_empty. Qed.

(** X17: the test for directories is a test for substrings: a compound
    is passed over, whatever the files hold, exactly when its [kind] is
    one of the seven substrings of ["dir"], the empty string among
    them. *)
Theorem directory_kinds path files entry :
  (∀ fs, parse_entry fs path files entry = inr files) ↔
  ∃ kind, get entry "kind" = Some kind ∧ kind ∈ dir_kinds.
Proof.
  split.
  - intros H. specialize (H (∅ : filesystem)). unfold parse_entry in H.
    destruct (get entry "kind") as [kind|]; [|done].
    exists kind. split; [done|]. apply str_in_dir.
    destruct (str_in kind "dir"); [done|].
    unfold parse_file in H. by rewrite read_xml_empty in H.
  - intros (kind & Hk & Hin%str_in_dir) fs. unfold parse_entry.
    by rewrite Hk, Hin.
Qed.

(** ** The listing and the summary *)

Lemma line_counts_app out1 out2 :
  line_counts (out1 ++ out2) = line_counts out1 ++ line_counts out2.
Proof. apply omap_app. Qed.

Lemma line_counts_syms ds : line_counts (SymLine <$> ds) = [].
Proof. by induction ds. Qed.

Lemma line_counts_segments files (l : list string) :
  Forall (completes files) l →
  foldr (λ c acc, c.1 + acc) 0 (line_counts (flat_map (segment files) l)) =
    (sum_counts files l).1 ∧
  foldr (λ c acc, c.2 + acc) 0 (line_counts (flat_map (segment files) l)) =
    (sum_counts files l).1 + (sum_counts files l).2.
Proof.
  induction 1 as [|f l Hf _ [IH1 IH2]]; [done|].
  cbn [flat_map]. rewrite line_counts_app, !foldr_app.
  unfold sum_counts in *. cbn [foldr fst snd] in *.
  rewrite IH1, IH2. clear IH1 IH2.
  assert (line_counts (segment files f) = [] ∧ counts files f = (0, 0) ∨
          line_counts (segment files f) =
            [((counts files f).1, (counts files f).1 + (counts files f).2)])
    as [[-> ->]| ->].
  { destruct (report_file_completes files f Hf)
      as (defs & Hget & _ & [[-> Hseg]|(_ & p & ds & _ & _ & Hseg)]).
    - left. rewrite Hseg. split; [done|]. unfold counts. by rewrite Hget.
    - right. rewrite Hseg.
      change (FileLine ?a ?b ?c ?d :: ?r) with ([FileLine a b c d] ++ r).
      by rewrite line_counts_app, line_counts_syms. }
  - cbn [foldr fst snd]. lia.
  - cbn [foldr fst snd]. lia.
Qed.

(** X18: the summary agrees with the listing: when [report] returns,
    the documented symbols and the symbols behind the total are the sums
    of the two numbers shown on the lines of the files. *)
Theorem total_sums_the_lines files exclude_dirs ns out v :
  report files exclude_dirs ns [] = (out, inr v) →
  foldr (λ c acc, c.1 + acc) 0 (line_counts out) =
    (grand_totals files exclude_dirs).1 ∧
  foldr (λ c acc, c.2 + acc) 0 (line_counts out) =
    (grand_totals files exclude_dirs).1 + (grand_totals files exclude_dirs).2.
Proof.
  rewrite report_unfold.
  destruct (py_sorted _ _) as [e|s] eqn:Hs; [done|].
  apply py_sorted_perm in Hs.
  destruct (report_loop _ _ _ _ _ _) as [o1 [e|[ty tn]]] eqn:Hl; [done|].
  destruct (py_truediv _ _) as [e|tp]; [done|]. intros [= <- _].
  apply report_loop_ok in Hl as (-> & Hall & _).
  rewrite line_counts_app. cbn [line_counts omap list_omap]. rewrite app_nil_r.
  unfold grand_totals.
  rewrite <-(sum_counts_perm files
    (filter (λ f, excluded exclude_dirs f = false) (rev s))).
  2:{ by rewrite <-Permutation_rev, Hs. }
  by apply line_counts_segments.
Qed.

Lemma total_sums_the_lines_witness :
  foldr (λ c acc, c.1 + acc) 0
    (line_counts [FileLine 100 "A.c" 3 3; FileLine 25 "B.c" 1 4;
                  SymLine (Some "b2"); SymLine (Some "b3"); SymLine (Some "b4");
                  BlankLine; TotalLine (400 # 7)]) =
    (grand_totals files_two_groups []).1 ∧
  foldr (λ c acc, c.2 + acc) 0
    (line_counts [FileLine 100 "A.c" 3 3; FileLine 25 "B.c" 1 4;
                  SymLine (Some "b2"); SymLine (Some "b3"); SymLine (Some "b4");
                  BlankLine; TotalLine (400 # 7)]) =
    (grand_totals files_two_groups []).1 + (grand_totals files_two_groups []).2.
Proof.
  apply (total_sums_the_lines files_two_groups [] ns_default _ (PFloat (160 # 7))).
  vm_compute. reflexivity.
Defined.

(** ** The threshold *)

(** X19: lowering the threshold never turns a pass into a failing
    verdict, and it changes nothing in what is printed: with a smaller
    threshold [report] prints the same lines and returns the [int] 0
    again, unless the threshold is so far below zero that no [float]
    holds it, where the subtraction raises [OverflowError] after the
    same lines. *)
Theorem lower_threshold_still_passes files exclude_dirs ns ns' out :
  report files exclude_dirs ns [] = (out, inr (PInt 0)) →
  threshold ns' ≤ threshold ns →
  report files exclude_dirs ns' [] =
    (out, if in_float_range (threshold ns') then inr (PInt 0)
          else inl OverflowError).
Proof.
  rewrite !report_unfold. intros Hr Hle.
  destruct (py_sorted _ _) as [e|s]; [done|].
  destruct (report_loop _ _ _ _ _ _) as [o1 [e|[ty tn]]]; [done|].
  destruct (py_truediv _ _) as [e|tp] eqn:Htp; [done|].
  apply py_truediv_float in Htp as [q ->].
  rewrite py_sub_int_float in *.
  destruct (in_float_range (threshold ns)); [|done].
  injection Hr as <- Hv. f_equal.
  destruct (in_float_range (threshold ns')); [|done]. f_equal.
  unfold py_gt in *. cbn [pyval] in *.
  destruct (Qltb (inject_Z (threshold ns)) q) eqn:Hlt; [|done].
  apply Qltb_lt in Hlt.
  rewrite (proj2 (Qltb_lt _ _)); [done|].
  eapply Qle_lt_trans; [|exact Hlt]. by rewrite <-Zle_Qle.
Qed.

Lemma lower_threshold_still_passes_witness :
  report [("src/a.c", [ {[ Some "int f" := true ]} ])] []
    {| dir := "xml"; noerror := false; threshold := 50; excludedirs := [] |} [] =
    ([FileLine 100 "src/a.c" 1 1; BlankLine; TotalLine 100],
     if in_float_range 50 then inr (PInt 0) else inl OverflowError).
Proof.
  apply (lower_threshold_still_passes _ [] ns_default
           {| dir := "xml"; noerror := false; threshold := 50;
              excludedirs := [] |}).
  - vm_compute. reflexivity.
  - vm_compute. discriminate.
Defined.

(** ** From the files to the exit status *)

(** X20: when [parse] returns a table, the process ends with status 0
    exactly when some path is not excluded, the undocumented names of
    every such path can be sorted, the threshold converts to a [float],
    and [--noerror] is given or 100 times the documented symbols exceed
    the threshold times all symbols. *)
Theorem status_of_parsed_table fs ns files :
  parse fs ns (dir ns) = inr files →
  let paths := listed files (excludedirs ns) in
  let Y := (grand_totals files (excludedirs ns)).1 in
  let T := Y + (grand_totals files (excludedirs ns)).2 in
  (main fs ns).2 = 0 ↔
  paths ≠ [] ∧
  Forall (λ f, sortable (undocumented files f) = true) paths ∧
  in_float_range (threshold ns) = true ∧
  (noerror ns = true ∨ threshold ns * T < 100 * Y).
Proof.
  intros Hp. cbn zeta. unfold main. rewrite Hp.
  pose proof (report_outcome_eq files (excludedirs ns) ns
                (parse_ok _ _ _ _ Hp)) as Ho.
  destruct (report files (excludedirs ns) ns []) as [out r].
  cbn [snd] in Ho. subst r. unfold report_outcome.
  destruct (forallb _ _) eqn:Hall; cbn [negb].
  - assert (Forall (λ f, sortable (undocumented files f) = true)
              (listed files (excludedirs ns))) as HF.
    { apply Forall_forall. intros f Hf. rewrite forallb_forall in Hall.
      by apply Hall, list_elem_of_In. }
    case_bool_decide as Hnil.
    { cbn [snd exit_status raise]. split; [done|]. by intros [? _]. }
    destruct (in_float_range (threshold ns)); cbn [negb].
    2:{ cbn [snd exit_status raise]. split; [done|]. by intros (_ & _ & ? & _). }
    cbn [snd ok]. destruct (noerror ns).
    { split; [|done]. intros _. by repeat split; [..|left]. }
    rewrite verdict_status. case_bool_decide as Hlt.
    + split; [|done]. intros _. by repeat split; [..|right].
    + split; [done|]. intros (_ & _ & _ & [?|?]); done.
  - cbn [snd exit_status raise]. split; [done|]. intros (_ & HF & _).
    assert (forallb (λ f, sortable (undocumented files f))
              (listed files (excludedirs ns)) = true) as E; [|congruence].
    apply forallb_forall. intros f Hf%list_elem_of_In.
    rewrite Forall_forall in HF. by apply HF.
Qed.

Lemma status_of_parsed_table_witness :
  (main fs_doc ns_default).2 = 0 ↔
  listed [("src/a.c", [ {[ Some "int f" := true ]} ])] (excludedirs ns_default) ≠ [] ∧
  Forall (λ f, sortable (undocumented
                 [("src/a.c", [ {[ Some "int f" := true ]} ])] f) = true)
    (listed [("src/a.c", [ {[ Some "int f" := true ]} ])] (excludedirs ns_default)) ∧
  in_float_range (threshold ns_default) = true ∧
  (noerror ns_default = true ∨
   threshold ns_default *
     ((grand_totals [("src/a.c", [ {[ Some "int f" := true ]} ])]
         (excludedirs ns_default)).1 +
      (grand_totals [("src/a.c", [ {[ Some "int f" := true ]} ])]
         (excludedirs ns_default)).2) <
   100 * (grand_totals [("src/a.c", [ {[ Some "int f" := true ]} ])]
            (excludedirs ns_default)).1).
Proof.
  apply (status_of_parsed_table fs_doc ns_default
           [("src/a.c", [ {[ Some "int f" := true ]} ])]).
  vm_compute. reflexivity.
Defined.

(** ** The comparison of two paths *)

(** X21: [file_cmp] is a three-way comparison by coverage: where it
    returns, it returns -1, 0 or 1 as the coverage of the first path is
    below, equal to or above that of the second, and the opposite number
    with the two paths exchanged. *)
Theorem file_cmp_three_way files a b c :
  file_cmp files a b = inr c →
  (c = -1 ↔ (coverage files a < coverage files b)%Q) ∧
  (c = 0 ↔ (coverage files a == coverage files b)%Q) ∧
  (c = 1 ↔ (coverage files b < coverage files a)%Q) ∧
  (c = -1 ∨ c = 0 ∨ c = 1) ∧
  file_cmp files b a = inr (- c).
Proof.
  unfold file_cmp, coverage.
  destruct (get_coverage files a) as [e|ca]; [done|].
  destruct (get_coverage files b) as [e|cb]; [done|].
  cbn [rbind]. unfold py_gt, py_lt, ok. intros [= <-].
  destruct (Qltb (pyval cb) (pyval ca)) eqn:H1;
    destruct (Qltb (pyval ca) (pyval cb)) eqn:H2; cbn [Z.b2z].
  - apply Qltb_lt in H1, H2. exfalso.
    apply (Qlt_irrefl (pyval ca)). by eapply Qlt_trans.
  - apply Qltb_lt in H1. apply Qltb_ge in H2.
    repeat split; try done; try (by right; right).
    + intros H. by apply Qlt_not_le in H.
    + intros H. rewrite H in H1. by apply Qlt_irrefl in H1.
  - apply Qltb_ge in H1. apply Qltb_lt in H2.
    repeat split; try done; try (by left).
    + intros H. rewrite H in H2. by apply Qlt_irrefl in H2.
    + intros H. by apply Qlt_not_le in H.
  - apply Qltb_ge in H1, H2.
    repeat split; try done; try (by right; left).
    + intros H. by apply Qlt_not_le in H.
    + intros _. by apply Qle_antisym.
    + intros H. by apply Qlt_not_le in H.
Qed.

Lemma file_cmp_three_way_witness :
  (-1 = -1 ↔ (coverage files_10_90_50 "low.c" < coverage files_10_90_50 "high.c")%Q) ∧
  (-1 = 0 ↔ (coverage files_10_90_50 "low.c" == coverage files_10_90_50 "high.c")%Q) ∧
  (-1 = 1 ↔ (coverage files_10_90_50 "high.c" < coverage files_10_90_50 "low.c")%Q) ∧
  (-1 = -1 ∨ -1 = 0 ∨ -1 = 1) ∧
  file_cmp files_10_90_50 "high.c" "low.c" = inr (- -1).
Proof.
  apply (file_cmp_three_way files_10_90_50 "low.c" "high.c" (-1)).
  vm_compute. reflexivity.
Defined.

(** ** The paths that are listed *)

Lemma printed_FileLine f p out :
  (f, p) ∈ printed_files out → ∃ y t, FileLine p f y t ∈ out.
Proof.
  unfold printed_files. intros (l & Hl & E)%list_elem_of_omap.
  destruct l as [p' f' y t| | |]; try done. injection E as -> ->. eauto.
Qed.

(** X22: when [report] returns, the paths with a line in the listing are
    the paths of the table that hold a record and contain none of the
    excluded strings anywhere, be it in the middle of a file name; and
    if the paths of the table are distinct, none is listed twice. *)
Theorem listed_paths files exclude_dirs ns out v :
  report files exclude_dirs ns [] = (out, inr v) →
  (∀ f, (∃ p y t, FileLine p f y t ∈ out) ↔
        (∃ d defs, od_get files f = Some (d :: defs)) ∧
        ∀ e pre post, e ∈ exclude_dirs → f ≠ (pre ++ e ++ post)%string) ∧
  (NoDup (keys files) → NoDup (printed_files out).*1).
Proof.
  intros Hr.
  destruct (report_printed files exclude_dirs ns) as (l & Hl & _ & _ & Hall).
  rewrite Hr in Hl, Hall. cbn [fst snd] in Hl, Hall.
  specialize (Hall v eq_refl). subst l.
  assert (∀ f, excluded exclude_dirs f = false ↔
               ∀ e pre post, e ∈ exclude_dirs → f ≠ (pre ++ e ++ post)%string)
    as Hex.
  { intros f. split.
    - intros Hf e pre post He ->.
      assert (excluded exclude_dirs (pre ++ e ++ post)%string = true);
        [|congruence].
      apply excluded_spec. by exists e, pre, post.
    - intros Hno. destruct (excluded exclude_dirs f) eqn:E; [|done].
      apply excluded_spec in E as (e & pre & post & He & ->).
      by destruct (Hno e pre post He). }
  split.
  - intros f. split.
    + intros (p & y & t & Hin).
      assert (FileLine p f y t ∈ (report files exclude_dirs ns []).1) as Hin'
        by by rewrite Hr.
      apply report_line in Hin' as [?|[[? ?]|(g & Hg & Hx & Hin')]]; [done..|].
      apply report_file_line in Hin'
        as (<- & defs & Hget & _ & Ht & Hpos & _).
      split; [|by apply Hex].
      destruct defs as [|d defs]; [|by eauto].
      unfold doc_count in Ht. simpl in Ht. lia.
    + intros [(d & defs & Hget) Hno].
      assert (included files exclude_dirs f = true) as Hinc.
      { unfold included. rewrite Hget, (proj2 (Hex f)); done. }
      assert ((f, coverage files f) ∈ printed_files out) as Hin.
      { rewrite Hl. apply list_elem_of_fmap. exists f. split; [done|].
        apply list_elem_of_filter. split; [done|].
        rewrite <-Permutation_rev, isort_perm.
        by eapply od_get_Some_keys. }
      apply printed_FileLine in Hin as (y & t & Hin). eauto.
  - intros Hnd. rewrite Hl, fmap_fst_pair.
    apply NoDup_filter. by rewrite <-Permutation_rev, isort_perm.
Qed.

Lemma listed_paths_witness :
  (∀ f, (∃ p y t, FileLine p f y t ∈
           [FileLine 50 "src/a.c" 1 2; SymLine (Some "g"); BlankLine;
            TotalLine 50]) ↔
        (∃ d defs, od_get files_generated f = Some (d :: defs)) ∧
        ∀ e pre post, e ∈ ["gen"] → f ≠ (pre ++ e ++ post)%string) ∧
  (NoDup (keys files_generated) →
   NoDup (printed_files
            [FileLine 50 "src/a.c" 1 2; SymLine (Some "g"); BlankLine;
             TotalLine 50]).*1).
Proof.
  apply (listed_paths files_generated ["gen"] ns_default _ (PFloat 30)).
  vm_compute. reflexivity.
Defined.
